(** * rt_transit: the GTFS-RT feed poller and the Silver flattening transforms

    A shallow embedding of
    - [src/raw/gtfs_rt_raw_ingest.py]: the polling fetcher (module [Ingest]);
    - [src/pipeline/gtfs.py]: the Silver streaming tables (module [Silver]);
    followed by the properties proved about them ([IngestSpec], [SilverSpec]). *)

From Stdlib Require Import List String Ascii Bool ZArith Lia.
From Stdlib Require Import PrimFloat DecimalString.
From Stdlib Require Import DecimalPos DecimalZ.
From Stdlib Require Uint63.
From Stdlib Require Strings.Byte.
Import ListNotations.

Set Warnings "-inexact-float".
Set Implicit Arguments.

(* ===================================================================== *)
(** * The poller: [gtfs_rt_raw_ingest.py] *)
(* ===================================================================== *)

Module Ingest.

Local Open Scope string_scope.

(** Python [bytes]. *)
Definition bytes : Type := list Byte.byte.

Fixpoint bytes_eqb (a b : bytes) : bool :=
  match a, b with
  | [], [] => true
  | x :: a', y :: b' => Byte.eqb x y && bytes_eqb a' b'
  | _, _ => false
  end.

(** The exceptions the loop can see.  All three are subclasses of Python's
    [Exception], so [except Exception] catches each of them. *)
Inductive exn : Type :=
| RequestException   (* requests.get / raise_for_status *)
| DecodeError        (* FeedMessage.ParseFromString *)
| OSError.           (* os.makedirs / open / json.dump *)

(** Module constants. *)
Definition DEFAULT_GTFS_RT_URL : string :=
  "https://realtime.hsl.fi/realtime/vehicle-positions/v2/hsl".
Definition DEFAULT_VOLUME_BASE_PATH : string :=
  "/Volumes/prod_lakehouse/vehicle/gtfs_rt_raw/".
Definition DEFAULT_POLL_INTERVAL_SECONDS : float := 5%float.
Definition REQUEST_TIMEOUT_SECONDS : Z := 30.

(** [str(n)] for a Python int. *)
Definition str_int (n : Z) : string := NilZero.string_of_int (Z.to_int n).

Fixpoint ends_with_sep (s : string) : bool :=
  match s with
  | EmptyString => false
  | String c EmptyString => Ascii.eqb c "/"
  | String _ rest => ends_with_sep rest
  end.

(** [os.path.join a b] on POSIX: an absolute [b] replaces [a]; otherwise the
    two are glued with exactly one separator. *)
Definition os_path_join (a b : string) : string :=
  if prefix "/" b then b
  else if (a =? "") || ends_with_sep a then a ++ b
  else a ++ "/" ++ b.

(** What the outside world answers during one pass through the loop body.
    A write that raises is taken to leave no record behind. *)
Record world : Type := {
  http_get : exn + bytes;        (* requests.get(url, timeout).content, or the error *)
  utc_date : string;             (* datetime.now(utc).strftime("%Y-%m-%d") *)
  utc_epoch : Z;                 (* int(datetime.now(utc).timestamp()) *)
  makedirs_error : option exn;   (* os.makedirs(full_dir, exist_ok=True) *)
  write_error : option exn       (* open(file_path, "w") + json.dump *)
}.

(** The local variables that survive from one iteration to the next. *)
Record state : Type := {
  last_data : option bytes;      (* None until the first successful write *)
  consecutive_errors : Z
}.

Section Poller.

(** The decoded document ([dict]) and the protobuf library
    ([FeedMessage.ParseFromString] followed by [MessageToDict]) are external;
    the parser is a deterministic function of the payload. *)
Context {json : Type}.
Variable parse_feed : bytes -> exn + json.

Inductive level : Type := DEBUG | INFO | ERROR | CRITICAL.

(** One constructor per [logger.*] call site. *)
Inductive log_site : Type :=
| Starting (url : string)
| SavingTo (volume_path : string)
| PollInterval (poll_interval : float)
| Fetched (len : nat) (url : string)
| FetchFailed (url : string) (e : exn)
| Parsed
| ParseFailed (e : exn)
| Saved (file_path : string)
| NoNewData
| IngestError (attempt : Z) (e : exn)
| TooManyErrors (limit : Z).

(** Calls that leave the process, in program order. *)
Inductive event : Type :=
| Get (url : string) (timeout : Z)
| Parse (data : bytes)
| Makedirs (path : string)
| WriteFile (path : string) (doc : json)
| Log (l : level) (s : log_site)
| Sleep (seconds : float).

(** Computations that emit events and either return or raise. *)
Definition M (A : Type) : Type := list event * (exn + A).

Definition ret {A} (a : A) : M A := ([], inr a).
Definition raise {A} (e : exn) : M A := ([], inl e).
Definition emit (ev : event) : M unit := ([ev], inr tt).

Definition bind {A B} (m : M A) (k : A -> M B) : M B :=
  match m with
  | (t, inl e) => (t, inl e)
  | (t, inr a) => let (t', r) := k a in ((t ++ t')%list, r)
  end.

(** [try: m  except Exception as e: h e] *)
Definition try_except {A} (m : M A) (h : exn -> M A) : M A :=
  match m with
  | (t, inl e) => let (t', r) := h e in ((t ++ t')%list, r)
  | (t, inr a) => (t, inr a)
  end.

Definition lift {A} (r : exn + A) : M A := ([], r).

Definition check (err : option exn) : M unit :=
  match err with Some e => raise e | None => ret tt end.

Notation "x <- m ;; k" := (bind m (fun x => k))
  (at level 61, m at next level, right associativity).
Notation "m ;;; k" := (bind m (fun _ => k))
  (at level 61, right associativity).

Definition trace {A} (m : M A) : list event := fst m.
Definition outcome {A} (m : M A) : exn + A := snd m.

Definition fetch_gtfs_rt_data (url : string) (w : world) : M bytes :=
  try_except
    (emit (Get url REQUEST_TIMEOUT_SECONDS) ;;;
     content <- lift (http_get w) ;;
     emit (Log DEBUG (Fetched (List.length content) url)) ;;;
     ret content)
    (fun e => emit (Log ERROR (FetchFailed url e)) ;;; raise e).

Definition protobuf_to_json (protobuf_data : bytes) : M json :=
  try_except
    (emit (Parse protobuf_data) ;;;
     json_dict <- lift (parse_feed protobuf_data) ;;
     emit (Log DEBUG Parsed) ;;;
     ret json_dict)
    (fun e => emit (Log ERROR (ParseFailed e)) ;;; raise e).

(** [current_data != last_data]: bytes never equal [None]. *)
Definition data_changed (current_data : bytes) (last : option bytes) : bool :=
  match last with
  | None => true
  | Some old => negb (bytes_eqb current_data old)
  end.

Definition max_consecutive_errors : Z := 10.

(** Where the snapshot of this iteration goes. *)
Definition snapshot_path (volume_path message_name : string) (w : world) : string :=
  let dt_dir := "dt=" ++ utc_date w in
  let full_dir := os_path_join volume_path dt_dir in
  let filename := message_name ++ "_" ++ str_int (utc_epoch w) ++ ".json" in
  os_path_join full_dir filename.

(** The body of [try:].  Both assignments to the loop variables come after
    the last call that can raise, so an exception always leaves them as they
    were on entry: the handler below continues from [st]. *)
Definition try_block (url volume_path message_name : string)
    (w : world) (st : state) : M state :=
  current_data <- fetch_gtfs_rt_data url w ;;
  if data_changed current_data (last_data st) then
    json_data <- protobuf_to_json current_data ;;
    let dt_dir := "dt=" ++ utc_date w in
    let full_dir := os_path_join volume_path dt_dir in
    emit (Makedirs full_dir) ;;;
    check (makedirs_error w) ;;;
    let file_path := snapshot_path volume_path message_name w in
    check (write_error w) ;;;
    emit (WriteFile file_path json_data) ;;;
    emit (Log INFO (Saved file_path)) ;;;
    ret {| last_data := Some current_data; consecutive_errors := 0 |}
  else
    emit (Log DEBUG NoNewData) ;;;
    ret st.

(** [except Exception as e:] *)
Definition handler (st : state) (e : exn) : M state :=
  let n := (consecutive_errors st + 1)%Z in
  emit (Log ERROR (IngestError n e)) ;;;
  if (max_consecutive_errors <=? n)%Z then
    emit (Log CRITICAL (TooManyErrors max_consecutive_errors)) ;;;
    raise e
  else
    ret {| last_data := last_data st; consecutive_errors := n |}.

(** One pass through [while True:], the sleep included. *)
Definition loop_body (url volume_path message_name : string)
    (w : world) (st : state) : M state :=
  st' <- try_except (try_block url volume_path message_name w st) (handler st) ;;
  emit (Sleep 0.5) ;;;
  ret st'.

(** The loop, unrolled against a finite prefix of what the world answers.
    [inr st] means the poller is still looping after the prefix; [inl e]
    means the function has raised [e] to its caller. *)
Fixpoint poll_loop (url volume_path message_name : string)
    (ws : list world) (st : state) : M state :=
  match ws with
  | [] => ret st
  | w :: rest =>
      st' <- loop_body url volume_path message_name w st ;;
      poll_loop url volume_path message_name rest st'
  end.

Definition initial_state : state :=
  {| last_data := None; consecutive_errors := 0 |}.

Definition run_continuous_ingestion (url volume_path : string)
    (poll_interval : float) (message_name : string) (ws : list world) : M state :=
  emit (Log INFO (Starting url)) ;;;
  emit (Log INFO (SavingTo volume_path)) ;;;
  emit (Log INFO (PollInterval poll_interval)) ;;;
  poll_loop url volume_path message_name ws initial_state.

(** Observations on traces. *)
Definition bronze_writes (t : list event) : list (string * json) :=
  flat_map (fun ev => match ev with WriteFile p d => [(p, d)] | _ => [] end) t.

Definition sleeps (t : list event) : list float :=
  flat_map (fun ev => match ev with Sleep d => [d] | _ => [] end) t.

Definition parses (t : list event) : list bytes :=
  flat_map (fun ev => match ev with Parse b => [b] | _ => [] end) t.

(** Did the [try] body of this iteration raise? *)
Definition iteration_failed (url volume_path message_name : string)
    (w : world) (st : state) : bool :=
  match outcome (try_block url volume_path message_name w st) with
  | inl _ => true
  | inr _ => false
  end.

(** The bytes this iteration stores, if it stores any: a fetch that
    succeeds, differs from [last], decodes, and is written without error. *)
Definition stored_by (w : world) (last : option bytes) : option bytes :=
  match http_get w with
  | inl _ => None
  | inr b =>
      if data_changed b last then
        match parse_feed b, makedirs_error w, write_error w with
        | inr _, None, None => Some b
        | _, _, _ => None
        end
      else None
  end.

(** Every iteration of the prefix stores a snapshot. *)
Fixpoint all_stored (last : option bytes) (ws : list world) : bool :=
  match ws with
  | [] => true
  | w :: rest =>
      match stored_by w last with
      | Some b => all_stored (Some b) rest
      | None => false
      end
  end.

(** The document a payload decodes to, when it does. *)
Definition decoded (b : bytes) : option json :=
  match parse_feed b with
  | inr doc => Some doc
  | inl _ => None
  end.

(** ** [save_json_to_file] *)





End Poller.

(** A directory name as [os.path.join] glues it to a relative name. *)
Definition as_dir (a : string) : string :=
  if (a =? "") || ends_with_sep a then a else a ++ "/".

Definition TIMESTAMP_FORMAT : string := "%Y%m%dT%H%M%S%fZ".

(** ** [main] *)

(** [args = {}] filled from [sys.argv]: the newest binding comes first. *)
Definition dict : Type := list (string * string).

Fixpoint dict_get (k : string) (d : dict) : option string :=
  match d with
  | [] => None
  | (k', v) :: rest => if k =? k' then Some v else dict_get k rest
  end.

(** [d.get(k, default)] *)
Definition get (d : dict) (k default : string) : string :=
  match dict_get k d with
  | Some v => v
  | None => default
  end.

(** [for i in range(1, len(argv), 2): if i + 1 < len(argv):
       args[argv[i]] = argv[i + 1]], on [argv[1:]]. *)
Fixpoint collect_args (rest : list string) (args : dict) : dict :=
  match rest with
  | k :: v :: rest' => collect_args rest' ((k, v) :: args)
  | _ => args
  end.

(** The command line [k1 v1 k2 v2 ...] of a list of pairs. *)
Definition flatten (kvs : list (string * string)) : list string :=
  flat_map (fun kv => [fst kv; snd kv]) kvs.

Inductive main_exn : Type :=
| ValueError (text : string)    (* float(...) on something that is no number *)
| Uncaught (e : exn).           (* re-raised by [except Exception] *)

Inductive main_log : Type :=
| StartingFor (message_name url : string)
| Interval (poll_interval : float)
| Volume (volume_path : string)
| Fatal (e : exn).

Section Entry.

Context {json : Type}.
Variable parse_feed : bytes -> exn + json.

(** Python's [float(s)] on a string; [None] stands for [ValueError]. *)
Variable float_of_string : string -> option float.

Inductive main_event : Type :=
| MainLog (l : level) (s : main_log)
| FromPoller (ev : event (json:=json)).

(** The [try:] around the poller.  [KeyboardInterrupt] is not an
    [Exception] and is outside this model. *)
Definition launch (logs : list main_event) (url volume_path : string)
    (poll_interval : float) (message_name : string) (ws : list world)
    : list main_event * (main_exn + state) :=
  let (t, r) :=
    run_continuous_ingestion parse_feed url volume_path poll_interval
      message_name ws in
  match r with
  | inr st => ((logs ++ map FromPoller t)%list, inr st)
  | inl e =>
      ((logs ++ map FromPoller t ++ [MainLog CRITICAL (Fatal e)])%list,
       inl (Uncaught e))
  end.

Definition main (argv : list string) (ws : list world)
    : list main_event * (main_exn + state) :=
  if (7 <=? List.length argv)%nat then
    let args := collect_args (tl argv) [] in
    let url := get args "gtfs_rt_url" DEFAULT_GTFS_RT_URL in
    let message_name := get args "message_name" "vehicle_positions" in
    let interval :=
      match dict_get "poll_interval_seconds" args with
      | Some text =>
          match float_of_string text with
          | Some f => inr f
          | None => inl (ValueError text)
          end
      | None => inr DEFAULT_POLL_INTERVAL_SECONDS
      end in
    match interval with
    | inl e => ([], inl e)
    | inr poll_interval =>
        let volume_path := DEFAULT_VOLUME_BASE_PATH in
        launch [MainLog INFO (StartingFor message_name url);
                MainLog INFO (Interval poll_interval);
                MainLog INFO (Volume volume_path)]
          url volume_path poll_interval message_name ws
    end
  else
    launch [] DEFAULT_GTFS_RT_URL DEFAULT_VOLUME_BASE_PATH
      DEFAULT_POLL_INTERVAL_SECONDS "vehicle_positions" ws.

Definition poller_events (t : list main_event) : list (event (json:=json)) :=
  flat_map (fun ev => match ev with FromPoller e => [e] | MainLog _ _ => [] end) t.

End Entry.

End Ingest.

(* ===================================================================== *)
(** * The Silver tables: [pipeline/gtfs.py] *)
(* ===================================================================== *)

Module Silver.

(** ** The decoded feed as Spark sees it

    The Bronze tables load the JSON written by the poller with an inferred
    schema: every field is nullable, a key missing from the JSON reads as
    null ([None]).  Only the fields the Silver queries read are listed.
    64-bit integers arrive as JSON strings ([MessageToDict]), hence the
    casts in the queries. *)

Record TripDescriptor : Type := {
  td_route_id : option string;
  td_direction_id : option Z;
  td_start_date : option string;
  td_start_time : option string;
  td_schedule_relationship : option string
}.

Record VehicleDescriptor : Type := {
  vd_id : option string;
  vd_label : option string
}.

Record Position : Type := {
  latitude : option float;
  longitude : option float;
  bearing : option float;
  speed : option float;
  odometer : option float
}.

Record VehiclePosition : Type := {
  vp_trip : option TripDescriptor;
  vp_vehicle : option VehicleDescriptor;
  vp_position : option Position;
  vp_current_status : option string;
  vp_occupancy_status : option string;
  vp_stop_id : option string;
  vp_timestamp : option string
}.

Record StopTimeEvent : Type := {
  ste_time : option string;
  ste_uncertainty : option Z
}.

Record StopTimeProperties : Type := {
  stp_assigned_stop_id : option string
}.

Record StopTimeUpdate : Type := {
  stu_stop_id : option string;
  stu_stop_sequence : option Z;
  stu_schedule_relationship : option string;
  stu_arrival : option StopTimeEvent;
  stu_departure : option StopTimeEvent;
  stu_stop_time_properties : option StopTimeProperties
}.

Record TripUpdate : Type := {
  tu_trip : option TripDescriptor;
  tu_timestamp : option string;
  tu_stop_time_update : option (list StopTimeUpdate)
}.

Record Translation : Type := {
  tr_text : option string;
  tr_language : option string
}.

Record TranslatedString : Type := {
  translation : option (list Translation)
}.

Record TimeRange : Type := {
  range_start : option string;
  range_end : option string
}.

Record EntitySelector : Type := {
  es_agency_id : option string;
  es_route_id : option string;
  es_stop_id : option string
}.

Record Alert : Type := {
  al_cause : option string;
  al_effect : option string;
  al_severity_level : option string;
  al_header_text : option TranslatedString;
  al_description_text : option TranslatedString;
  al_url : option TranslatedString;
  al_active_period : option (list TimeRange);
  al_informed_entity : option (list EntitySelector)
}.

(** The variant of an entity is whichever of the three blocks is present. *)
Record FeedEntity : Type := {
  id : option string;
  vehicle : option VehiclePosition;
  trip_update : option TripUpdate;
  alert : option Alert
}.

Record FeedHeader : Type := {
  hd_timestamp : option string
}.

(** ** Spark column expressions *)

(** A dotted path [col("a.b")]: null as soon as a struct on the way is null. *)
Definition field {A B} (o : option A) (f : A -> option B) : option B :=
  match o with
  | Some a => f a
  | None => None
  end.

Notation "o >>= f" := (field o f) (at level 50, left associativity).

(** [explode]: one output row per element; a null or empty array gives none. *)
Definition explode {A} (arr : option (list A)) : list A :=
  match arr with
  | Some l => l
  | None => []
  end.

(** [c[0]] on an array column: null when the array is null or empty. *)
Definition element0 {A} (arr : option (list A)) : option A :=
  arr >>= (fun l => nth_error l 0).

Definition lit {A} (a : A) : option A := Some a.

(** [concat]: null if any argument is null. *)
Fixpoint concat (cols : list (option string)) : option string :=
  match cols with
  | [] => Some EmptyString
  | c :: rest =>
      match c, concat rest with
      | Some s, Some t => Some (s ++ t)%string
      | _, _ => None
      end
  end.

(** [c * k] on a double column with a double literal. *)
Definition times (c : option float) (k : float) : option float :=
  option_map (fun v => (v * k)%float) c.

Definition isNotNull {A} (c : option A) : bool :=
  match c with Some _ => true | None => false end.

(** [when(cond, a).otherwise(b)] *)
Definition when_otherwise {A} (cond : bool) (a b : option A) : option A :=
  if cond then a else b.

Record Point : Type := {
  x : option float;
  y : option float
}.

(** The elements of an entity's repeated fields; a repeated field that is
    empty is left out of the JSON and reads as null. *)
Definition stop_time_updates (e : FeedEntity) : list StopTimeUpdate :=
  match trip_update e with
  | Some tu => match tu_stop_time_update tu with Some l => l | None => [] end
  | None => []
  end.

Definition informed_entities (e : FeedEntity) : list EntitySelector :=
  match alert e with
  | Some a => match al_informed_entity a with Some l => l | None => [] end
  | None => []
  end.

(** ** The Bronze sources *)

Definition VOLUME_BASE_PATH : string :=
  "/Volumes/prod_lakehouse/vehicle/gtfs_rt_raw".

(** The argument of [.load(...)] in each Bronze table. *)
Definition bronze_vehicle_positions_files : string :=
  (VOLUME_BASE_PATH ++ "/dt=*/vehicle_positions_*.json")%string.
Definition bronze_trip_updates_files : string :=
  (VOLUME_BASE_PATH ++ "/dt=*/trip_updates_*.json")%string.
Definition bronze_service_alerts_files : string :=
  (VOLUME_BASE_PATH ++ "/dt=*/service_alerts_*.json")%string.

(** Path globbing as far as these patterns need it: ["*"] stands for any
    run of characters within one path component, every other character for
    itself. *)
Fixpoint glob (pattern : string) : string -> bool :=
  match pattern with
  | EmptyString =>
      fun path => match path with EmptyString => true | String _ _ => false end
  | String p pattern' =>
      if Ascii.eqb p "*" then
        fix star (path : string) : bool :=
          glob pattern' path ||
          match path with
          | EmptyString => false
          | String c path' => negb (Ascii.eqb c "/") && star path'
          end
      else
        fun path =>
          match path with
          | EmptyString => false
          | String c path' => Ascii.eqb p c && glob pattern' path'
          end
  end.

Fixpoint no_slash (s : string) : bool :=
  match s with
  | EmptyString => true
  | String c rest => negb (Ascii.eqb c "/") && no_slash rest
  end.

Fixpoint no_star (s : string) : bool :=
  match s with
  | EmptyString => true
  | String c rest => negb (Ascii.eqb c "*") && no_star rest
  end.

(** No ["_"] anywhere in the string. *)
Fixpoint no_underscore (s : string) : bool :=
  match s with
  | EmptyString => true
  | String c rest => negb (Ascii.eqb c "_") && no_underscore rest
  end.

Section Tables.

(** The [_metadata] struct of the file source and the value of
    [current_timestamp()] are carried through untouched. *)
Context {Metadata Timestamp : Type}.

(** Spark built-ins left abstract: [CAST(s AS BIGINT)] (null when [s] is not
    a number) and [from_unixtime] (epoch seconds to a formatted time). *)
Variable cast_bigint : string -> option Z.
Variable from_unixtime : Z -> string.

Definition cast (c : option string) : option Z := c >>= cast_bigint.
Definition from_unixtime_col (c : option Z) : option string :=
  option_map from_unixtime c.

(** A row of a Bronze table: the document plus the partition column and the
    ingestion metadata. *)
Record BronzeRecord : Type := {
  entity : option (list FeedEntity);
  header : option FeedHeader;
  dt : option string;
  file_metadata : Metadata;
  ingestion_timestamp : Timestamp
}.

(** All entities of a table, record by record. *)
Definition entities (bronze : list BronzeRecord) : list FeedEntity :=
  flat_map (fun r => explode (entity r)) bronze.

(** The first [select] of every entity-level query:
    [explode("entity").alias("entity_exploded")] next to the record columns. *)
Record Exploded : Type := {
  entity_exploded : FeedEntity;
  ex_header : option FeedHeader;
  ex_dt : option string;
  ex_file_metadata : Metadata;
  ex_ingestion_timestamp : Timestamp
}.

Definition explode_entity (bronze : list BronzeRecord) : list Exploded :=
  flat_map (fun r =>
    map (fun e => {| entity_exploded := e;
                     ex_header := header r;
                     ex_dt := dt r;
                     ex_file_metadata := file_metadata r;
                     ex_ingestion_timestamp := ingestion_timestamp r |})
        (explode (entity r))) bronze.

(** *** silver_vehicle_positions *)

Record VehiclePositionRow : Type := {
  v_entity_id : option string;
  v_vehicle_id : option string;
  v_vehicle_label : option string;
  v_route_id : option string;
  v_direction_id : option Z;
  v_trip_start_date : option string;
  v_trip_start_time : option string;
  v_schedule_relationship : option string;
  v_latitude : option float;
  v_longitude : option float;
  v_bearing : option float;
  v_speed_mps : option float;
  v_odometer : option float;
  v_current_status : option string;
  v_occupancy_status : option string;
  v_current_stop_id : option string;
  v_vehicle_timestamp : option string;
  v_feed_timestamp : option string;
  v_dt : option string;
  v_file_metadata : Metadata;
  v_ingestion_timestamp : Timestamp;
  v_speed_kmh : option float;
  v_bearing_degrees : option float;
  v_geometry_point : Point
}.

Definition silver_vehicle_positions (bronze : list BronzeRecord)
    : list VehiclePositionRow :=
  map (fun r =>
    let e := Some (entity_exploded r) in
    {| v_entity_id := e >>= id;
       v_vehicle_id := e >>= vehicle >>= vp_vehicle >>= vd_id;
       v_vehicle_label := e >>= vehicle >>= vp_vehicle >>= vd_label;
       v_route_id := e >>= vehicle >>= vp_trip >>= td_route_id;
       v_direction_id := e >>= vehicle >>= vp_trip >>= td_direction_id;
       v_trip_start_date := e >>= vehicle >>= vp_trip >>= td_start_date;
       v_trip_start_time := e >>= vehicle >>= vp_trip >>= td_start_time;
       v_schedule_relationship :=
         e >>= vehicle >>= vp_trip >>= td_schedule_relationship;
       v_latitude := e >>= vehicle >>= vp_position >>= latitude;
       v_longitude := e >>= vehicle >>= vp_position >>= longitude;
       v_bearing := e >>= vehicle >>= vp_position >>= bearing;
       v_speed_mps := e >>= vehicle >>= vp_position >>= speed;
       v_odometer := e >>= vehicle >>= vp_position >>= odometer;
       v_current_status := e >>= vehicle >>= vp_current_status;
       v_occupancy_status := e >>= vehicle >>= vp_occupancy_status;
       v_current_stop_id := e >>= vehicle >>= vp_stop_id;
       v_vehicle_timestamp :=
         from_unixtime_col (cast (e >>= vehicle >>= vp_timestamp));
       v_feed_timestamp :=
         from_unixtime_col (cast (ex_header r >>= hd_timestamp));
       v_dt := ex_dt r;
       v_file_metadata := ex_file_metadata r;
       v_ingestion_timestamp := ex_ingestion_timestamp r;
       v_speed_kmh := times (e >>= vehicle >>= vp_position >>= speed) 3.6;
       v_bearing_degrees :=
         when_otherwise
           (isNotNull (e >>= vehicle >>= vp_position >>= bearing))
           (e >>= vehicle >>= vp_position >>= bearing)
           None;
       v_geometry_point :=
         {| x := e >>= vehicle >>= vp_position >>= longitude;
            y := e >>= vehicle >>= vp_position >>= latitude |} |})
    (explode_entity bronze).

(** *** silver_trip_updates *)

(** After the second [select]: trip-level columns next to one exploded
    element of [stop_time_update]. *)
Record TripStopStage : Type := {
  s_entity_id : option string;
  s_route_id : option string;
  s_direction_id : option Z;
  s_trip_start_date : option string;
  s_trip_start_time : option string;
  s_trip_schedule_relationship : option string;
  s_trip_update_timestamp : option string;
  stop_update : StopTimeUpdate;
  s_feed_timestamp : option string;
  s_dt : option string;
  s_file_metadata : Metadata;
  s_ingestion_timestamp : Timestamp
}.

Record TripStopUpdateRow : Type := {
  t_entity_id : option string;
  t_route_id : option string;
  t_direction_id : option Z;
  t_trip_start_date : option string;
  t_trip_start_time : option string;
  t_trip_schedule_relationship : option string;
  t_trip_update_timestamp : option string;
  t_feed_timestamp : option string;
  t_stop_id : option string;
  t_stop_sequence : option Z;
  t_stop_schedule_relationship : option string;
  t_predicted_arrival_time : option string;
  t_arrival_uncertainty_seconds : option Z;
  t_predicted_departure_time : option string;
  t_departure_uncertainty_seconds : option Z;
  t_assigned_stop_id : option string;
  t_dt : option string;
  t_file_metadata : Metadata;
  t_ingestion_timestamp : Timestamp;
  t_trip_id : option string
}.

Definition explode_stop_time_update (rows : list Exploded) : list TripStopStage :=
  flat_map (fun r =>
    let e := Some (entity_exploded r) in
    map (fun su =>
      {| s_entity_id := e >>= id;
         s_route_id := e >>= trip_update >>= tu_trip >>= td_route_id;
         s_direction_id := e >>= trip_update >>= tu_trip >>= td_direction_id;
         s_trip_start_date := e >>= trip_update >>= tu_trip >>= td_start_date;
         s_trip_start_time := e >>= trip_update >>= tu_trip >>= td_start_time;
         s_trip_schedule_relationship :=
           e >>= trip_update >>= tu_trip >>= td_schedule_relationship;
         s_trip_update_timestamp :=
           from_unixtime_col (cast (e >>= trip_update >>= tu_timestamp));
         stop_update := su;
         s_feed_timestamp :=
           from_unixtime_col (cast (ex_header r >>= hd_timestamp));
         s_dt := ex_dt r;
         s_file_metadata := ex_file_metadata r;
         s_ingestion_timestamp := ex_ingestion_timestamp r |})
      (explode (e >>= trip_update >>= tu_stop_time_update))) rows.

Definition silver_trip_updates (bronze : list BronzeRecord)
    : list TripStopUpdateRow :=
  map (fun r =>
    let su := Some (stop_update r) in
    {| t_entity_id := s_entity_id r;
       t_route_id := s_route_id r;
       t_direction_id := s_direction_id r;
       t_trip_start_date := s_trip_start_date r;
       t_trip_start_time := s_trip_start_time r;
       t_trip_schedule_relationship := s_trip_schedule_relationship r;
       t_trip_update_timestamp := s_trip_update_timestamp r;
       t_feed_timestamp := s_feed_timestamp r;
       t_stop_id := su >>= stu_stop_id;
       t_stop_sequence := su >>= stu_stop_sequence;
       t_stop_schedule_relationship := su >>= stu_schedule_relationship;
       t_predicted_arrival_time :=
         from_unixtime_col (cast (su >>= stu_arrival >>= ste_time));
       t_arrival_uncertainty_seconds := su >>= stu_arrival >>= ste_uncertainty;
       t_predicted_departure_time :=
         from_unixtime_col (cast (su >>= stu_departure >>= ste_time));
       t_departure_uncertainty_seconds :=
         su >>= stu_departure >>= ste_uncertainty;
       t_assigned_stop_id :=
         su >>= stu_stop_time_properties >>= stp_assigned_stop_id;
       t_dt := s_dt r;
       t_file_metadata := s_file_metadata r;
       t_ingestion_timestamp := s_ingestion_timestamp r;
       t_trip_id :=
         concat [s_route_id r; lit "_"%string; s_trip_start_date r;
                 lit "_"%string; s_trip_start_time r] |})
    (explode_stop_time_update (explode_entity bronze)).

(** *** silver_service_alerts *)

Record ServiceAlertRow : Type := {
  a_alert_id : option string;
  a_cause : option string;
  a_effect : option string;
  a_severity_level : option string;
  a_header_text : option string;
  a_header_language : option string;
  a_description_text : option string;
  a_description_language : option string;
  a_url : option string;
  a_active_periods : option (list TimeRange);
  a_informed_entities : option (list EntitySelector);
  a_feed_timestamp : option string;
  a_dt : option string;
  a_file_metadata : Metadata;
  a_ingestion_timestamp : Timestamp
}.

Definition silver_service_alerts (bronze : list BronzeRecord)
    : list ServiceAlertRow :=
  map (fun r =>
    let e := Some (entity_exploded r) in
    {| a_alert_id := e >>= id;
       a_cause := e >>= alert >>= al_cause;
       a_effect := e >>= alert >>= al_effect;
       a_severity_level := e >>= alert >>= al_severity_level;
       a_header_text :=
         element0 (e >>= alert >>= al_header_text >>= translation) >>= tr_text;
       a_header_language :=
         element0 (e >>= alert >>= al_header_text >>= translation) >>= tr_language;
       a_description_text :=
         element0 (e >>= alert >>= al_description_text >>= translation) >>= tr_text;
       a_description_language :=
         element0 (e >>= alert >>= al_description_text >>= translation)
           >>= tr_language;
       a_url := element0 (e >>= alert >>= al_url >>= translation) >>= tr_text;
       a_active_periods := e >>= alert >>= al_active_period;
       a_informed_entities := e >>= alert >>= al_informed_entity;
       a_feed_timestamp :=
         from_unixtime_col (cast (ex_header r >>= hd_timestamp));
       a_dt := ex_dt r;
       a_file_metadata := ex_file_metadata r;
       a_ingestion_timestamp := ex_ingestion_timestamp r |})
    (explode_entity bronze).

(** *** silver_service_alerts_entities *)

(** After the first [select]: the alert columns next to one exploded element
    of [informed_entities]. *)
Record AlertEntityStage : Type := {
  g_alert_id : option string;
  g_cause : option string;
  g_effect : option string;
  g_severity_level : option string;
  g_header_text : option string;
  g_description_text : option string;
  g_url : option string;
  g_feed_timestamp : option string;
  g_entity : EntitySelector;
  g_dt : option string;
  g_ingestion_timestamp : Timestamp
}.

Record AlertEntityRow : Type := {
  n_alert_id : option string;
  n_cause : option string;
  n_effect : option string;
  n_severity_level : option string;
  n_header_text : option string;
  n_description_text : option string;
  n_url : option string;
  n_feed_timestamp : option string;
  n_affected_agency_id : option string;
  n_affected_route_id : option string;
  n_affected_stop_id : option string;
  n_dt : option string;
  n_ingestion_timestamp : Timestamp
}.

Definition explode_informed_entities (alerts : list ServiceAlertRow)
    : list AlertEntityStage :=
  flat_map (fun r =>
    map (fun ie =>
      {| g_alert_id := a_alert_id r;
         g_cause := a_cause r;
         g_effect := a_effect r;
         g_severity_level := a_severity_level r;
         g_header_text := a_header_text r;
         g_description_text := a_description_text r;
         g_url := a_url r;
         g_feed_timestamp := a_feed_timestamp r;
         g_entity := ie;
         g_dt := a_dt r;
         g_ingestion_timestamp := a_ingestion_timestamp r |})
      (explode (a_informed_entities r))) alerts.

(** Reads the table [silver_service_alerts]. *)
Definition silver_service_alerts_entities (alerts : list ServiceAlertRow)
    : list AlertEntityRow :=
  map (fun r =>
    let ie := Some (g_entity r) in
    {| n_alert_id := g_alert_id r;
       n_cause := g_cause r;
       n_effect := g_effect r;
       n_severity_level := g_severity_level r;
       n_header_text := g_header_text r;
       n_description_text := g_description_text r;
       n_url := g_url r;
       n_feed_timestamp := g_feed_timestamp r;
       n_affected_agency_id := ie >>= es_agency_id;
       n_affected_route_id := ie >>= es_route_id;
       n_affected_stop_id := ie >>= es_stop_id;
       n_dt := g_dt r;
       n_ingestion_timestamp := g_ingestion_timestamp r |})
    (explode_informed_entities alerts).

(** A record reduced to one of its entities: what the queries emit for it
    is what they emit for that entity. *)
Definition only (r : BronzeRecord) (e : FeedEntity) : BronzeRecord :=
  {| entity := Some [e];
     header := header r;
     dt := dt r;
     file_metadata := file_metadata r;
     ingestion_timestamp := ingestion_timestamp r |}.

End Tables.

End Silver.

(* ===================================================================== *)
(** * Concrete scenarios *)
(* ===================================================================== *)

(** Inputs on which the definitions above are evaluated further down. *)
Module Scenario.

Import Ingest.
Local Open Scope string_scope.

(** A stand-in for the protobuf parser: a body that starts with the tag of
    the header field decodes (to itself), anything else is rejected. *)
Definition sample_parse (data : bytes) : exn + bytes :=
  match data with
  | Byte.x0a :: _ => inr data
  | _ => inl DecodeError
  end.

(** A lone continuation byte: not a protobuf message. *)
Definition garbage : bytes := [Byte.xff].

Definition feed_a : bytes := [Byte.x0a; Byte.x03].
Definition feed_b : bytes := [Byte.x0a; Byte.x04].

(** The world at second [epoch] of 2025-01-01. *)
Definition answers (r : exn + bytes) (store : option exn) (epoch : Z) : world :=
  {| http_get := r;
     utc_date := "2025-01-01";
     utc_epoch := epoch;
     makedirs_error := None;
     write_error := store |}.

Definition serves (data : bytes) (epoch : Z) : world :=
  answers (inr data) None epoch.
Definition serves_disk_full (data : bytes) (epoch : Z) : world :=
  answers (inr data) (Some OSError) epoch.
Definition unreachable (epoch : Z) : world :=
  answers (inl RequestException) None epoch.

Definition run (ws : list world) : M (json:=bytes) state :=
  run_continuous_ingestion sample_parse DEFAULT_GTFS_RT_URL
    DEFAULT_VOLUME_BASE_PATH DEFAULT_POLL_INTERVAL_SECONDS "vehicle_positions" ws.

(** The feed answers, then keeps alternating between an outage and the same
    bytes: [n] isolated failures, each followed by a successful fetch. *)
Fixpoint flapping (n : nat) (epoch : Z) : list world :=
  match n with
  | O => []
  | S n' => unreachable epoch :: serves feed_a (epoch + 1) :: flapping n' (epoch + 2)
  end.

(** A stand-in for Python's [float] on strings: decimal integers only. *)
Definition sample_float (text : string) : option float :=
  match NilZero.int_of_string text with
  | Some (Decimal.Pos d) => Some (PrimFloat.of_uint63 (Uint63.of_Z (Z.of_int (Decimal.Pos d))))
  | _ => None
  end.

(** An outage lasting [n] polls, from second [epoch] on. *)
Definition outage (n : nat) (epoch : nat) : list world :=
  map (fun k => unreachable (Z.of_nat k)) (seq epoch n).


Definition trip_updates_command : list (string * string) :=
  [("gtfs_rt_url", "https://example.org/old");
   ("message_name", "trip_updates");
   ("poll_interval_seconds", "60");
   ("gtfs_rt_url", "https://example.org/tu")].

Definition bad_interval_command : list (string * string) :=
  [("gtfs_rt_url", "https://example.org/tu");
   ("message_name", "trip_updates");
   ("poll_interval_seconds", "soon")].

End Scenario.

Module SilverScenario.

Import Silver.
Local Open Scope string_scope.

(** Stand-ins for the two Spark built-ins: decimal strings are numbers, and
    a time is shown as its epoch seconds. *)
Definition cast_digits (s : string) : option Z :=
  option_map Z.of_int (NilZero.int_of_string s).
Definition show_epoch (t : Z) : string :=
  NilZero.string_of_int (Z.to_int t).

Definition trip_55 : TripDescriptor :=
  {| td_route_id := Some "55";
     td_direction_id := Some 1%Z;
     td_start_date := Some "20250101";
     td_start_time := Some "08:00:00";
     td_schedule_relationship := Some "SCHEDULED" |}.

Definition stop (name : string) (seq : Z) : StopTimeUpdate :=
  {| stu_stop_id := Some name;
     stu_stop_sequence := Some seq;
     stu_schedule_relationship := None;
     stu_arrival := Some {| ste_time := Some "1735718400"; ste_uncertainty := Some 30%Z |};
     stu_departure := None;
     stu_stop_time_properties := None |}.

(** A trip update with three stop-time updates. *)
Definition trip_entity : FeedEntity :=
  {| id := Some "e1";
     vehicle := None;
     trip_update :=
       Some {| tu_trip := Some trip_55;
               tu_timestamp := Some "1735718000";
               tu_stop_time_update := Some [stop "A" 1; stop "B" 2; stop "C" 3] |};
     alert := None |}.

(** A vehicle at 10 m/s with no trip block. *)
Definition vehicle_entity : FeedEntity :=
  {| id := Some "e2";
     vehicle :=
       Some {| vp_trip := None;
               vp_vehicle := Some {| vd_id := Some "bus-7"; vd_label := None |};
               vp_position :=
                 Some {| latitude := Some 60.17%float;
                         longitude := Some 24.94%float;
                         bearing := None;
                         speed := Some 10%float;
                         odometer := None |};
               vp_current_status := Some "IN_TRANSIT_TO";
               vp_occupancy_status := None;
               vp_stop_id := None;
               vp_timestamp := Some "1735718399" |};
     trip_update := None;
     alert := None |}.

(** An alert that names two affected entities. *)
Definition alert_entity : FeedEntity :=
  {| id := Some "e3";
     vehicle := None;
     trip_update := None;
     alert :=
       Some {| al_cause := Some "CONSTRUCTION";
               al_effect := Some "DETOUR";
               al_severity_level := Some "WARNING";
               al_header_text := None;
               al_description_text := None;
               al_url := None;
               al_active_period := None;
               al_informed_entity :=
                 Some [ {| es_agency_id := None; es_route_id := Some "55";
                           es_stop_id := None |};
                        {| es_agency_id := None; es_route_id := None;
                           es_stop_id := Some "A" |} ] |} |}.

Definition snapshot (es : list FeedEntity) : BronzeRecord (Metadata:=unit) (Timestamp:=unit) :=
  {| entity := Some es;
     header := Some {| hd_timestamp := Some "1735718400" |};
     dt := Some "2025-01-01";
     file_metadata := tt;
     ingestion_timestamp := tt |}.

End SilverScenario.

(* ===================================================================== *)
(** * Properties of the poller *)
(* ===================================================================== *)

Module IngestSpec.

Import Ingest.

Lemma bytes_eqb_refl (a : bytes) : bytes_eqb a a = true.
Proof.
  induction a as [|x a IH]; simpl; [reflexivity|].
  rewrite (Byte.byte_dec_lb (eq_refl x)). exact IH.
Qed.

Lemma bytes_eqb_eq (a b : bytes) : bytes_eqb a b = true -> a = b.
Proof.
  revert b. induction a as [|x a IH]; intros [|y b]; simpl; try discriminate.
  - reflexivity.
  - intros H. apply andb_prop in H. destruct H as [Hx Hr].
    apply Byte.byte_dec_bl in Hx. apply IH in Hr. congruence.
Qed.

Lemma data_changed_true (b : bytes) (last : option bytes) :
  data_changed b last = true <-> last <> Some b.
Proof.
  unfold data_changed. destruct last as [old|].
  - rewrite negb_true_iff. split.
    + intros H E. inversion E; subst. rewrite bytes_eqb_refl in H. discriminate.
    + intros H. destruct (bytes_eqb b old) eqn:E; [|reflexivity].
      apply bytes_eqb_eq in E. subst. contradiction.
  - split; [discriminate | reflexivity].
Qed.

Lemma data_changed_same (b : bytes) : data_changed b (Some b) = false.
Proof. unfold data_changed. rewrite bytes_eqb_refl. reflexivity. Qed.

Section Facts.

Context {json : Type}.
Variable parse_feed : bytes -> exn + json.
Variables url volume_path message_name : string.

Local Abbreviation body := (loop_body parse_feed url volume_path message_name).
Local Abbreviation attempt := (try_block parse_feed url volume_path message_name).
Local Abbreviation loop := (poll_loop parse_feed url volume_path message_name).
Local Abbreviation failed := (iteration_failed parse_feed url volume_path message_name).

(** ** The monad *)

Lemma bind_inr {A B} (m : @M json A) (k : A -> @M json B) t b :
  bind m k = (t, inr b) ->
  exists t1 a t2, m = (t1, inr a) /\ k a = (t2, inr b) /\ t = (t1 ++ t2)%list.
Proof.
  unfold bind. destruct m as [t1 [e|a]]; [discriminate|].
  destruct (k a) as [t2 r] eqn:K. intros H. inversion H; subst.
  exists t1, a, t2. auto.
Qed.

Lemma trace_bind {A B} (m : @M json A) (k : A -> @M json B) a :
  outcome m = inr a ->
  trace (bind m k) = (trace m ++ trace (k a))%list /\
  outcome (bind m k) = outcome (k a).
Proof.
  unfold outcome, trace, bind. destruct m as [t [e|a']]; simpl; [discriminate|].
  intros H. inversion H; subst. destruct (k a); auto.
Qed.

Lemma bronze_writes_app (t1 t2 : list (event (json:=json))) :
  bronze_writes (t1 ++ t2) = (bronze_writes t1 ++ bronze_writes t2)%list.
Proof. apply flat_map_app. Qed.

Lemma parses_app (t1 t2 : list (event (json:=json))) :
  parses (t1 ++ t2) = (parses t1 ++ parses t2)%list.
Proof. apply flat_map_app. Qed.

Lemma sleeps_app (t1 t2 : list (event (json:=json))) :
  sleeps (t1 ++ t2) = (sleeps t1 ++ sleeps t2)%list.
Proof. apply flat_map_app. Qed.

(** ** One iteration, case by case *)

Local Arguments os_path_join : simpl never.
Local Arguments str_int : simpl never.
Local Arguments snapshot_path : simpl never.
Local Arguments String.append : simpl never.
Local Arguments Z.leb : simpl never.
Local Arguments Z.add : simpl never.

Ltac crunch :=
  unfold iteration_failed, loop_body, try_block, handler, fetch_gtfs_rt_data,
    protobuf_to_json, check, lift, emit, raise, ret, try_except, bind,
    outcome, trace.

(** The fetch returned exactly the stored bytes: nothing but the log call
    and the sleep happens, and the loop variables are untouched. *)
Lemma body_unchanged w st b :
  http_get w = inr b -> last_data st = Some b ->
  body w st =
    ([Get url REQUEST_TIMEOUT_SECONDS; Log DEBUG (Fetched (List.length b) url);
      Log DEBUG NoNewData; Sleep 0.5], inr st).
Proof.
  intros Hg Hl. crunch. rewrite Hg, Hl, data_changed_same. reflexivity.
Qed.

(** New bytes that decode and store without error. *)
Lemma body_stored w st b doc :
  http_get w = inr b -> last_data st <> Some b -> parse_feed b = inr doc ->
  makedirs_error w = None -> write_error w = None ->
  outcome (body w st) = inr {| last_data := Some b; consecutive_errors := 0 |} /\
  bronze_writes (trace (body w st)) =
    [(snapshot_path volume_path message_name w, doc)] /\
  parses (trace (body w st)) = [b] /\
  sleeps (trace (body w st)) = [0.5%float].
Proof.
  intros Hg Hl Hp Hm Hw. apply data_changed_true in Hl.
  crunch. rewrite Hg, Hl, Hp, Hm, Hw. simpl. auto.
Qed.

(** The loop body in terms of what its [try] block did. *)
Lemma body_eq w st :
  body w st =
    match attempt w st with
    | (t, inr st') => (t ++ [Sleep 0.5], inr st')
    | (t, inl e) =>
        let n := (consecutive_errors st + 1)%Z in
        if (max_consecutive_errors <=? n)%Z
        then (t ++ [Log ERROR (IngestError n e);
                    Log CRITICAL (TooManyErrors max_consecutive_errors)], inl e)
        else (t ++ [Log ERROR (IngestError n e); Sleep 0.5],
              inr {| last_data := last_data st; consecutive_errors := n |})
    end%list.
Proof.
  unfold loop_body, handler, try_except, bind, emit, raise, ret.
  destruct (attempt w st) as [t [e|st']]; [|reflexivity].
  simpl. destruct (_ <=? _)%Z; simpl; rewrite <- ?app_assoc; reflexivity.
Qed.

(** A [try] block that raises has written nothing. *)
Lemma failed_writes_nothing w st :
  failed w st = true -> bronze_writes (trace (attempt w st)) = [].
Proof.
  crunch.
  destruct (http_get w) as [e|b]; [reflexivity|].
  destruct (data_changed b (last_data st)); [|(simpl; discriminate)].
  destruct (parse_feed b) as [e|doc]; [reflexivity|].
  destruct (makedirs_error w) as [e|]; [reflexivity|].
  destruct (write_error w) as [e|]; [reflexivity|(simpl; discriminate)].
Qed.

(** A [try] block that raises entered the branch for changed data, unless
    the fetch itself failed. *)
Lemma failed_after_fetch w st b :
  failed w st = true -> http_get w = inr b -> last_data st <> Some b.
Proof.
  intros H Hg. apply data_changed_true. revert H.
  crunch. rewrite Hg.
  destruct (data_changed b (last_data st)); [reflexivity|(simpl; discriminate)].
Qed.

(** After an iteration the stored bytes are the old ones or the bytes just
    fetched. *)
Lemma body_last_data w st t st' :
  body w st = (t, inr st') ->
  last_data st' = last_data st \/
  exists b, http_get w = inr b /\ last_data st' = Some b.
Proof.
  rewrite body_eq.
  destruct (attempt w st) as [t0 [e|s]] eqn:E.
  - simpl. destruct (_ <=? _)%Z; [(simpl; discriminate)|].
    intros H. inversion H; subst. left. reflexivity.
  - intros H. inversion H; subst. clear H. revert E. crunch.
    destruct (http_get w) as [e|b]; [(simpl; discriminate)|].
    destruct (data_changed b (last_data st)).
    + destruct (parse_feed b) as [e|doc]; [(simpl; discriminate)|].
      destruct (makedirs_error w) as [e|]; [(simpl; discriminate)|].
      destruct (write_error w) as [e|]; [(simpl; discriminate)|].
      simpl. intros H. inversion H; subst. right. exists b. auto.
    + simpl. intros H. inversion H; subst. left. reflexivity.
Qed.

(** ** The loop *)

Lemma loop_cons w ws st :
  loop (w :: ws) st = bind (body w st) (loop ws).
Proof. reflexivity. Qed.

Lemma loop_cons_inr w ws st t st2 :
  loop (w :: ws) st = (t, inr st2) ->
  exists t1 st1 t2,
    body w st = (t1, inr st1) /\ loop ws st1 = (t2, inr st2) /\
    t = (t1 ++ t2)%list.
Proof. rewrite loop_cons. apply bind_inr. Qed.

(** Bytes that are neither stored nor fetched do not become the stored
    bytes. *)
Lemma loop_never_stores b ws : forall st t st2,
  Forall (fun w => http_get w <> inr b) ws ->
  last_data st <> Some b ->
  loop ws st = (t, inr st2) ->
  last_data st2 <> Some b.
Proof.
  induction ws as [|w ws IH]; intros st t st2 Hall Hst Hrun.
  - inversion Hrun; subst. exact Hst.
  - apply loop_cons_inr in Hrun.
    destruct Hrun as (t1 & st1 & t2 & Hbody & Hrest & _).
    inversion Hall as [|? ? Hw Hws]; subst.
    apply (IH st1 t2 st2 Hws); [|exact Hrest].
    destruct (body_last_data _ _ Hbody) as [Hkeep | (b' & Hg & Hnew)].
    + rewrite Hkeep. exact Hst.
    + rewrite Hnew. intros E. inversion E; subst. contradiction.
Qed.

(** A run of fetches that all return the stored bytes: no parse, no write,
    and the loop variables stay put. *)
Lemma loop_unchanged b ws : forall st,
  last_data st = Some b ->
  Forall (fun w => http_get w = inr b) ws ->
  outcome (loop ws st) = inr st /\
  bronze_writes (trace (loop ws st)) = [] /\
  parses (trace (loop ws st)) = [] /\
  List.length (sleeps (trace (loop ws st))) = List.length ws.
Proof.
  induction ws as [|w ws IH]; intros st Hst Hall.
  - repeat split; reflexivity.
  - inversion Hall as [|? ? Hw Hws]; subst.
    destruct (IH st Hst Hws) as (Ho & Hb & Hp & Hs).
    rewrite loop_cons.
    assert (Hbody := body_unchanged w st Hw Hst).
    destruct (@trace_bind _ _ (body w st) (loop ws) st) as [Ht Hout].
    { rewrite Hbody. reflexivity. }
    rewrite Ht, Hout, bronze_writes_app, parses_app, sleeps_app, Hb, Hp.
    rewrite Hbody. simpl. rewrite Hs. auto.
Qed.

(** Changed bytes are handed to the parser, whatever happens afterwards. *)
Lemma body_changed_parses w st b :
  http_get w = inr b -> last_data st <> Some b ->
  parses (trace (body w st)) = [b] /\
  ~ In (Log DEBUG NoNewData) (trace (body w st)).
Proof.
  intros Hg Hl. apply data_changed_true in Hl. rewrite body_eq.
  crunch. rewrite Hg, Hl.
  destruct (parse_feed b) as [e|doc];
    [|destruct (makedirs_error w) as [e|];
      [|destruct (write_error w) as [e|]]];
    simpl; try destruct (_ <=? _)%Z; simpl; (split; [reflexivity|]);
    intros H; repeat (destruct H as [H|H]; [discriminate|]); exact H.
Qed.

Lemma trace_bind_gen {A B} (m : @M json A) (k : A -> @M json B) :
  trace (bind m k) =
    (trace m ++ match outcome m with inr a => trace (k a) | inl _ => [] end)%list.
Proof.
  unfold trace, outcome, bind. destruct m as [t [e|a]]; simpl.
  - rewrite app_nil_r. reflexivity.
  - destruct (k a). reflexivity.
Qed.

Lemma attempt_never_sleeps w st : sleeps (trace (attempt w st)) = [].
Proof.
  crunch.
  destruct (http_get w) as [e|b]; [reflexivity|].
  destruct (data_changed b (last_data st)); [|reflexivity].
  destruct (parse_feed b) as [e|doc]; [reflexivity|].
  destruct (makedirs_error w) as [e|]; [reflexivity|].
  destruct (write_error w) as [e|]; reflexivity.
Qed.

(** The pause after an iteration is the literal [0.5]. *)
Lemma body_sleeps w st :
  Forall (fun d => d = 0.5%float) (sleeps (trace (body w st))).
Proof.
  rewrite body_eq. assert (Hs := attempt_never_sleeps w st).
  unfold trace in *. destruct (attempt w st) as [t [e|st']]; simpl in *.
  - destruct (_ <=? _)%Z; simpl; rewrite sleeps_app, Hs; simpl; auto.
  - rewrite sleeps_app, Hs. simpl. auto.
Qed.

Lemma loop_sleeps ws : forall st,
  Forall (fun d => d = 0.5%float) (sleeps (trace (loop ws st))).
Proof.
  induction ws as [|w ws IH]; intros st; [constructor|].
  rewrite loop_cons, trace_bind_gen, sleeps_app. apply Forall_app. split.
  - apply body_sleeps.
  - destruct (outcome (body w st)); [constructor | apply IH].
Qed.

(** [poll_interval] reaches the start-up log line and nothing else. *)
Lemma run_sleeps poll_interval ws :
  Forall (fun d => d = 0.5%float)
    (sleeps (trace (run_continuous_ingestion parse_feed url volume_path
                      poll_interval message_name ws))).
Proof.
  unfold run_continuous_ingestion.
  rewrite !trace_bind_gen, !sleeps_app. simpl. apply loop_sleeps.
Qed.

(** ** Streaks of failures *)




(** ** Change detection *)

(** C1, as the code has it.  A run of fetches that all return the same bytes
    [b], entered while [b] is not the stored payload and whose first
    iteration decodes and stores [b] without error, adds exactly one Bronze
    record: the first iteration writes it, and every later fetch of the run
    neither parses nor writes. *)
Theorem unchanged_run_stored_once w ws st b doc :
  last_data st <> Some b ->
  parse_feed b = inr doc ->
  makedirs_error w = None -> write_error w = None ->
  Forall (fun w0 => http_get w0 = inr b) (w :: ws) ->
  let st1 := {| last_data := Some b; consecutive_errors := 0 |} in
  let record := (snapshot_path volume_path message_name w, doc) in
  outcome (body w st) = inr st1 /\
  bronze_writes (trace (body w st)) = [record] /\
  outcome (loop ws st1) = inr st1 /\
  bronze_writes (trace (loop ws st1)) = [] /\
  parses (trace (loop ws st1)) = [] /\
  bronze_writes (trace (loop (w :: ws) st)) = [record].
Proof.
  intros Hst Hdoc Hmk Hwr Hall st1 record.
  inversion Hall as [|? ? Hw Hws]; subst.
  destruct (body_stored w st Hw Hst Hdoc Hmk Hwr) as (Ho & Hb & _ & _).
  destruct (@loop_unchanged b ws st1 eq_refl Hws) as (Ho' & Hb' & Hp' & _).
  repeat (split; [assumption|]).
  rewrite loop_cons.
  destruct (@trace_bind _ _ (body w st) (loop ws) st1 Ho) as [Ht _].
  rewrite Ht, bronze_writes_app, Hb, Hb'. reflexivity.
Qed.

(** C10.  An iteration whose [try] block raised leaves [last_data] as it
    was.  Hence, if that iteration had fetched [b], the next iteration that
    fetches [b] again (after any number of iterations fetching other bytes or
    failing to fetch) hands [b] to the parser again instead of taking the
    "no new data" branch. *)
Theorem failed_iteration_keeps_last_data w st t st' :
  failed w st = true ->
  body w st = (t, inr st') ->
  last_data st' = last_data st /\
  forall b, http_get w = inr b ->
    forall ws t2 st2 w',
      Forall (fun w0 => http_get w0 <> inr b) ws ->
      loop ws st' = (t2, inr st2) ->
      http_get w' = inr b ->
      parses (trace (body w' st2)) = [b] /\
      ~ In (Log DEBUG NoNewData) (trace (body w' st2)).
Proof.
  intros Hf Hbody.
  assert (Hkeep : last_data st' = last_data st).
  { rewrite body_eq in Hbody. unfold iteration_failed, outcome in Hf.
    destruct (attempt w st) as [t0 [e|s]]; [|discriminate].
    simpl in Hbody. destruct (_ <=? _)%Z; [discriminate|].
    inversion Hbody; subst. reflexivity. }
  split; [exact Hkeep|].
  intros b Hg ws t2 st2 w' Hws Hrun Hg'.
  apply body_changed_parses; [exact Hg'|].
  apply (@loop_never_stores b ws st' t2 st2 Hws); [|exact Hrun].
  rewrite Hkeep. exact (failed_after_fetch _ _ Hf Hg).
Qed.

(** ** Further facts about the loop *)

Lemma stored_by_inv w last b :
  stored_by parse_feed w last = Some b ->
  http_get w = inr b /\ last <> Some b /\
  (exists doc, parse_feed b = inr doc) /\
  makedirs_error w = None /\ write_error w = None.
Proof.
  unfold stored_by.
  destruct (http_get w) as [e|b0]; [discriminate|].
  destruct (data_changed b0 last) eqn:Hc; [|discriminate].
  destruct (parse_feed b0) as [e|doc] eqn:Hp; [discriminate|].
  destruct (makedirs_error w); [discriminate|].
  destruct (write_error w); [discriminate|].
  intros H. inversion H; subst.
  apply data_changed_true in Hc. repeat split; eauto.
Qed.

(** What a [try] block that completes returns: the state it was given, or
    the fetched bytes with the counter at zero, after exactly one write. *)
Lemma attempt_completed w st t s :
  attempt w st = (t, inr s) ->
  (s = st /\ bronze_writes t = []) \/
  (exists b doc,
     http_get w = inr b /\ parse_feed b = inr doc /\
     makedirs_error w = None /\ write_error w = None /\
     s = {| last_data := Some b; consecutive_errors := 0 |} /\
     bronze_writes t = [(snapshot_path volume_path message_name w, doc)]).
Proof.
  crunch.
  destruct (http_get w) as [e|b] eqn:Hg; [simpl; discriminate|].
  destruct (data_changed b (last_data st)).
  - destruct (parse_feed b) as [e|doc] eqn:Hp; [simpl; discriminate|].
    destruct (makedirs_error w) as [e|] eqn:Hm; [simpl; discriminate|].
    destruct (write_error w) as [e|] eqn:Hw; [simpl; discriminate|].
    simpl. intros H. inversion H; subst. right. exists b, doc.
    repeat split; auto.
  - simpl. intros H. inversion H; subst. left. split; reflexivity.
Qed.

Lemma body_completed w st t s :
  body w st = (t, inr s) ->
  sleeps t = [0.5%float] /\
  ((last_data s = last_data st /\ bronze_writes t = [] /\
    (consecutive_errors s = consecutive_errors st \/
     consecutive_errors s = consecutive_errors st + 1)%Z) \/
   (exists b doc,
      http_get w = inr b /\ parse_feed b = inr doc /\
      makedirs_error w = None /\ write_error w = None /\
      s = {| last_data := Some b; consecutive_errors := 0 |} /\
      bronze_writes t = [(snapshot_path volume_path message_name w, doc)])).
Proof.
  rewrite body_eq.
  assert (Hs := attempt_never_sleeps w st).
  destruct (attempt w st) as [t0 [e|s0]] eqn:E; unfold trace in Hs; simpl in Hs.
  - assert (Hw : bronze_writes t0 = []).
    { assert (Hf : failed w st = true).
      { unfold iteration_failed, outcome. rewrite E. reflexivity. }
      apply failed_writes_nothing in Hf. rewrite E in Hf. exact Hf. }
    simpl. destruct (_ <=? _)%Z; [discriminate|].
    intros H. inversion H; subst. clear H.
    rewrite sleeps_app, bronze_writes_app, Hs, Hw. simpl.
    split; [reflexivity|]. left. auto.
  - intros H. inversion H; subst. clear H.
    rewrite sleeps_app, bronze_writes_app, Hs. simpl.
    split; [reflexivity|].
    destruct (attempt_completed _ _ E) as [[-> Hw] | (b & doc & Hg & Hp & Hm & Hwr & -> & Hw)].
    + left. rewrite Hw. auto.
    + right. exists b, doc. rewrite Hw. repeat split; assumption.
Qed.

Lemma trace_loop_cons w ws st :
  trace (loop (w :: ws) st) =
    (trace (body w st) ++
     match outcome (body w st) with
     | inr st1 => trace (loop ws st1)
     | inl _ => []
     end)%list.
Proof. rewrite loop_cons. apply trace_bind_gen. Qed.

Lemma outcome_loop_cons w ws st :
  outcome (loop (w :: ws) st) =
    match outcome (body w st) with
    | inr st1 => outcome (loop ws st1)
    | inl e => inl e
    end.
Proof.
  rewrite loop_cons. unfold outcome, bind.
  destruct (body w st) as [t [e|s]]; [reflexivity|].
  simpl. destruct (loop ws s). reflexivity.
Qed.

(** X1.  Completeness: when every iteration of a prefix fetches bytes that
    differ from the ones stored just before and that decode and store
    without error, the prefix writes one record per iteration, in order, each
    at the path of its own iteration and holding the decoding of the bytes
    fetched there; the poller is still running afterwards. *)
Theorem changed_fetches_all_stored ws : forall st,
  all_stored parse_feed (last_data st) ws = true ->
  map (fun pd => (fst pd, Some (snd pd))) (bronze_writes (trace (loop ws st))) =
  map (fun w => (snapshot_path volume_path message_name w,
                 match http_get w with
                 | inr b => decoded parse_feed b
                 | inl _ => None
                 end)) ws /\
  List.length (bronze_writes (trace (loop ws st))) = List.length ws /\
  exists st', outcome (loop ws st) = inr st'.
Proof.
  induction ws as [|w ws IH]; intros st Hall.
  - simpl. repeat split; eauto.
  - simpl in Hall. destruct (stored_by parse_feed w (last_data st)) as [b|] eqn:Hb;
      [|discriminate].
    apply stored_by_inv in Hb.
    destruct Hb as (Hg & Hne & (doc & Hp) & Hm & Hw).
    destruct (body_stored w st Hg Hne Hp Hm Hw) as (Ho & Hbw & _ & _).
    destruct (IH {| last_data := Some b; consecutive_errors := 0 |} Hall)
      as (IHmap & IHlen & st' & IHo).
    rewrite trace_loop_cons, outcome_loop_cons, Ho, bronze_writes_app, Hbw.
    rewrite map_app, length_app, IHmap, IHlen. simpl.
    unfold decoded. rewrite Hg, Hp. repeat split; eauto.
Qed.

Lemma counter_bound_step w st t st1 :
  (0 <= consecutive_errors st < max_consecutive_errors)%Z ->
  body w st = (t, inr st1) ->
  (0 <= consecutive_errors st1 < max_consecutive_errors)%Z.
Proof.
  intros Hc Hbody. rewrite body_eq in Hbody.
  destruct (attempt w st) as [t0 [e|s0]] eqn:E.
  - simpl in Hbody.
    destruct (Z.leb_spec max_consecutive_errors (consecutive_errors st + 1));
      [discriminate|].
    inversion Hbody; subst. simpl. lia.
  - inversion Hbody; subst.
    destruct (attempt_completed _ _ E) as [[-> _] | (b & doc & _ & _ & _ & _ & -> & _)].
    + exact Hc.
    + simpl. unfold max_consecutive_errors. lia.
Qed.

(** X2.  While the poller is running its error counter stays within
    [0, max_consecutive_errors). *)
Theorem counter_stays_below_limit ws : forall st t st',
  (0 <= consecutive_errors st < max_consecutive_errors)%Z ->
  loop ws st = (t, inr st') ->
  (0 <= consecutive_errors st' < max_consecutive_errors)%Z.
Proof.
  induction ws as [|w ws IH]; intros st t st' Hc Hrun.
  - inversion Hrun; subst. exact Hc.
  - apply loop_cons_inr in Hrun.
    destruct Hrun as (t1 & st1 & t2 & Hbody & Hrest & _).
    apply (IH st1 t2 st' ); [|exact Hrest].
    rewrite body_eq in Hbody.
    destruct (attempt w st) as [t0 [e|s0]] eqn:E.
    + simpl in Hbody.
      destruct (Z.leb_spec max_consecutive_errors (consecutive_errors st + 1));
        [discriminate|].
      inversion Hbody; subst. simpl. lia.
    + inversion Hbody; subst.
      destruct (attempt_completed _ _ E) as [[-> _] | (b & doc & _ & _ & _ & _ & -> & _)].
      * exact Hc.
      * simpl. unfold max_consecutive_errors. lia.
Qed.


(** X4.  While the poller is running, [last_data] is the payload of the
    last record written during the run (its decoding is that record's
    document), or still what it was at the start when nothing was written. *)
Theorem last_data_is_last_written ws : forall st t st',
  loop ws st = (t, inr st') ->
  match rev (bronze_writes t) with
  | [] => last_data st' = last_data st
  | (_, d) :: _ => exists b, last_data st' = Some b /\ parse_feed b = inr d
  end.
Proof.
  induction ws as [|w ws IH]; intros st t st' Hrun.
  - inversion Hrun; subst. reflexivity.
  - apply loop_cons_inr in Hrun.
    destruct Hrun as (t1 & st1 & t2 & Hbody & Hrest & ->).
    specialize (IH st1 t2 st' Hrest).
    rewrite bronze_writes_app, rev_app_distr.
    destruct (rev (bronze_writes t2)) as [|[p d] r].
    + simpl.
      destruct (body_completed _ _ Hbody)
        as (_ & [(Hl & Hw & _) | (b & doc & _ & Hp & _ & _ & -> & Hw)]);
        rewrite Hw; simpl.
      * congruence.
      * exists b. split; [exact IH | exact Hp].
    + simpl. exact IH.
Qed.

Lemma loop_sleeps_count ws : forall st t st',
  loop ws st = (t, inr st') ->
  sleeps t = repeat 0.5%float (List.length ws).
Proof.
  induction ws as [|w ws IH]; intros st t st' Hrun.
  - inversion Hrun; subst. reflexivity.
  - apply loop_cons_inr in Hrun.
    destruct Hrun as (t1 & st1 & t2 & Hbody & Hrest & ->).
    rewrite sleeps_app, (IH _ _ _ Hrest).
    destruct (body_completed _ _ Hbody) as (-> & _). reflexivity.
Qed.

Lemma run_eq poll_interval ws :
  run_continuous_ingestion parse_feed url volume_path poll_interval
    message_name ws =
  (Log INFO (Starting url) :: Log INFO (SavingTo volume_path) ::
   Log INFO (PollInterval poll_interval) :: trace (loop ws initial_state),
   outcome (loop ws initial_state)).
Proof.
  unfold run_continuous_ingestion, bind, emit, trace, outcome.
  destruct (loop ws initial_state) as [t r]. reflexivity.
Qed.

(** X5.  Fixed-interval retry: whatever [poll_interval] is and whatever
    happened in the iterations (stored, unchanged or failed), a poller that
    is still running has slept exactly once per iteration, half a second
    each time. *)
Theorem one_half_second_sleep_per_iteration poll_interval ws st' :
  outcome (run_continuous_ingestion parse_feed url volume_path poll_interval
             message_name ws) = inr st' ->
  sleeps (trace (run_continuous_ingestion parse_feed url volume_path
                   poll_interval message_name ws)) =
  repeat 0.5%float (List.length ws).
Proof.
  rewrite run_eq. unfold outcome, trace. simpl. intros Ho.
  apply (@loop_sleeps_count ws initial_state _ st').
  destruct (loop ws initial_state) as [t r]. simpl in *. congruence.
Qed.

Lemma loop_fatal_shape ws : forall st e,
  (0 <= consecutive_errors st < max_consecutive_errors)%Z ->
  outcome (loop ws st) = inl e ->
  exists t',
    trace (loop ws st) =
    (t' ++ [Log ERROR (IngestError max_consecutive_errors e);
            Log CRITICAL (TooManyErrors max_consecutive_errors)])%list /\
    sleeps t' = repeat 0.5%float (List.length (sleeps t')) /\
    (List.length (sleeps t') < List.length ws)%nat.
Proof.
  induction ws as [|w ws IH]; intros st e Hc Ho; [discriminate|].
  rewrite outcome_loop_cons in Ho. rewrite trace_loop_cons.
  destruct (body w st) as [t1 [e1|st1]] eqn:Hbody; unfold outcome in Ho; simpl in Ho.
  - inversion Ho; subst. clear Ho. unfold outcome, trace. simpl.
    rewrite body_eq in Hbody.
    assert (Hs := attempt_never_sleeps w st).
    destruct (attempt w st) as [t0 [e0|s0]]; [|discriminate].
    unfold trace in Hs. simpl in Hs, Hbody.
    destruct (Z.leb_spec max_consecutive_errors (consecutive_errors st + 1));
      [|discriminate].
    inversion Hbody; subst.
    replace (consecutive_errors st + 1)%Z with max_consecutive_errors by lia.
    exists t0. rewrite app_nil_r, Hs. simpl. repeat split; lia.
  - unfold outcome, trace. simpl.
    assert (Hc1 : (0 <= consecutive_errors st1 < max_consecutive_errors)%Z).
    { apply (@counter_bound_step w st t1 st1 Hc Hbody). }
    destruct (IH st1 e Hc1 Ho) as (t' & Ht & Hrep & Hlen).
    exists (t1 ++ t')%list. unfold trace in Ht. rewrite Ht, app_assoc.
    split; [reflexivity|].
    destruct (body_completed _ _ Hbody) as (Hs1 & _).
    rewrite sleeps_app, Hs1, length_app. simpl.
    split; [f_equal; exact Hrep | lia].
Qed.

(** X6.  When the poller gives up, the last things it did were to log the
    error of the failing iteration, numbered [max_consecutive_errors], and
    the critical line; the exception it raises is the one of that iteration,
    and no sleep follows. *)
Theorem fatal_exit_is_the_tenth_error poll_interval ws e :
  outcome (run_continuous_ingestion parse_feed url volume_path poll_interval
             message_name ws) = inl e ->
  exists t',
    trace (run_continuous_ingestion parse_feed url volume_path poll_interval
             message_name ws) =
    (t' ++ [Log ERROR (IngestError 10 e); Log CRITICAL (TooManyErrors 10)])%list /\
    (List.length (sleeps t') < List.length ws)%nat.
Proof.
  rewrite run_eq. unfold outcome at 1, trace at 1. simpl. intros Ho.
  destruct (@loop_fatal_shape ws initial_state e) as (t' & Ht & _ & Hlen).
  { simpl. unfold max_consecutive_errors. lia. }
  { exact Ho. }
  exists (Log INFO (Starting url) :: Log INFO (SavingTo volume_path) ::
          Log INFO (PollInterval poll_interval) :: t').
  rewrite Ht. split; [reflexivity | exact Hlen].
Qed.


(** X11.  The file name has one-second resolution: when two consecutive
    iterations store different payloads within the same second of the same
    day, both writes go to the same path, and the second replaces the
    first. *)
Theorem same_second_same_file w1 w2 st :
  all_stored parse_feed (last_data st) [w1; w2] = true ->
  utc_date w1 = utc_date w2 -> utc_epoch w1 = utc_epoch w2 ->
  map fst (bronze_writes (trace (loop [w1; w2] st))) =
    [snapshot_path volume_path message_name w1;
     snapshot_path volume_path message_name w1].
Proof.
  intros Hall Hd He. simpl in Hall.
  destruct (stored_by parse_feed w1 (last_data st)) as [b1|] eqn:H1; [|discriminate].
  destruct (stored_by parse_feed w2 (Some b1)) as [b2|] eqn:H2; [|discriminate].
  apply stored_by_inv in H1. destruct H1 as (Hg1 & Hn1 & (d1 & Hp1) & Hm1 & Hw1).
  apply stored_by_inv in H2. destruct H2 as (Hg2 & Hn2 & (d2 & Hp2) & Hm2 & Hw2).
  destruct (body_stored w1 st Hg1 Hn1 Hp1 Hm1 Hw1) as (Ho1 & Hb1 & _ & _).
  destruct (body_stored w2 {| last_data := Some b1; consecutive_errors := 0 |}
              Hg2 Hn2 Hp2 Hm2 Hw2) as (Ho2 & Hb2 & _ & _).
  rewrite trace_loop_cons, Ho1, trace_loop_cons, Ho2.
  rewrite !bronze_writes_app, Hb1, Hb2. simpl.
  unfold snapshot_path. rewrite Hd, He. reflexivity.
Qed.

End Facts.

Import Scenario.
Local Open Scope string_scope.

Lemma unchanged_run_stored_once_witness :
  bronze_writes
    (trace (poll_loop sample_parse DEFAULT_GTFS_RT_URL DEFAULT_VOLUME_BASE_PATH
              "vehicle_positions"
              [serves feed_a 100; serves feed_a 101; serves feed_a 102]
              initial_state)) =
  [("/Volumes/prod_lakehouse/vehicle/gtfs_rt_raw/dt=2025-01-01/vehicle_positions_100.json",
    feed_a)].
Proof.
  refine (proj2 (proj2 (proj2 (proj2 (proj2
    (@unchanged_run_stored_once _ sample_parse DEFAULT_GTFS_RT_URL
       DEFAULT_VOLUME_BASE_PATH "vehicle_positions"
       (serves feed_a 100) [serves feed_a 101; serves feed_a 102]
       initial_state feed_a feed_a _ _ _ _ _)))))).
  - discriminate.
  - reflexivity.
  - reflexivity.
  - reflexivity.
  - repeat constructor.
Defined.

(** C1 as worded fails when the first iteration of the run fails.  A
    malformed body served twice is rejected by the parser twice: the run
    leaves no record at all.  A body whose first write fails is written by
    the second, byte-identical fetch, which therefore is not a no-op. *)
Lemma unchanged_run_counterexample :
  (Forall (fun w => http_get w = inr garbage)
     [serves garbage 100; serves garbage 101] /\
   List.length
     (bronze_writes (trace (run [serves garbage 100; serves garbage 101]))) <> 1%nat) /\
  (Forall (fun w => http_get w = inr feed_a)
     [serves_disk_full feed_a 100; serves feed_a 101] /\
   bronze_writes (trace (run [serves_disk_full feed_a 100])) = [] /\
   bronze_writes (trace (run [serves_disk_full feed_a 100; serves feed_a 101])) =
   [("/Volumes/prod_lakehouse/vehicle/gtfs_rt_raw/dt=2025-01-01/vehicle_positions_101.json",
     feed_a)]).
Proof.
  split; split.
  - repeat constructor.
  - vm_compute. discriminate.
  - repeat constructor.
  - split; reflexivity.
Qed.

Lemma failed_iteration_keeps_last_data_witness :
  last_data {| last_data := None; consecutive_errors := 1 |} =
    last_data initial_state /\
  parses (trace (loop_body sample_parse DEFAULT_GTFS_RT_URL
                   DEFAULT_VOLUME_BASE_PATH "vehicle_positions"
                   (serves feed_a 103)
                   {| last_data := Some feed_b; consecutive_errors := 0 |})) =
    [feed_a].
Proof.
  destruct (@failed_iteration_keeps_last_data _ sample_parse DEFAULT_GTFS_RT_URL
              DEFAULT_VOLUME_BASE_PATH "vehicle_positions"
              (serves_disk_full feed_a 100) initial_state
              _ {| last_data := None; consecutive_errors := 1 |}
              eq_refl eq_refl) as [Hkeep Hagain].
  split; [exact Hkeep|].
  refine (proj1 (Hagain feed_a eq_refl
                   [unreachable 101; serves feed_b 102] _
                   {| last_data := Some feed_b; consecutive_errors := 0 |}
                   (serves feed_a 103) _ eq_refl eq_refl)).
  repeat constructor; discriminate.
Defined.

(** C2 does not hold on the code: the pause is the literal [0.5] whatever
    [poll_interval] is.  With the default interval of five seconds, two
    iterations sleep half a second each. *)
Lemma sleep_ignores_poll_interval :
  DEFAULT_POLL_INTERVAL_SECONDS = 5%float /\
  sleeps (trace (run [serves feed_a 100; serves feed_b 101])) =
    [0.5%float; 0.5%float] /\
  0.5%float <> DEFAULT_POLL_INTERVAL_SECONDS.
Proof.
  split; [reflexivity|]. split; [reflexivity|].
  intros H. apply (f_equal (fun d => PrimFloat.eqb d 5%float)) in H.
  vm_compute in H. discriminate.
Qed.

(** C3 does not hold on the code: the counter is reset only in the branch
    that writes.  After a stored snapshot and one outage, a fetch that
    returns the stored bytes succeeds and leaves the counter at 1. *)
Lemma unchanged_fetch_keeps_error_count :
  iteration_failed sample_parse DEFAULT_GTFS_RT_URL DEFAULT_VOLUME_BASE_PATH
    "vehicle_positions" (serves feed_a 102)
    {| last_data := Some feed_a; consecutive_errors := 1 |} = false /\
  outcome (run [serves feed_a 100; unreachable 101; serves feed_a 102]) =
    inr {| last_data := Some feed_a; consecutive_errors := 1 |}.
Proof. split; reflexivity. Qed.

(** C4 does not hold on the code, for the reason C3 does not: failures
    separated by successful unchanged fetches are still counted together.
    Nine isolated outages leave the poller running with the counter at 9;
    the tenth, again right after a successful fetch, is fatal. *)
Lemma isolated_failures_are_fatal :
  outcome (run (serves feed_a 100 :: flapping 9 101)) =
    inr {| last_data := Some feed_a; consecutive_errors := 9 |} /\
  outcome (run (serves feed_a 100 :: flapping 9 101 ++ [unreachable 119])) =
    inl RequestException.
Proof. split; vm_compute; reflexivity. Qed.

(** ** Where the snapshots go *)

Lemma append_assoc (a b c : string) : (a ++ b) ++ c = a ++ b ++ c.
Proof. induction a as [|x a IH]; simpl; [|rewrite IH]; reflexivity. Qed.

Lemma append_inv_head (a b c : string) : a ++ b = a ++ c -> b = c.
Proof.
  induction a as [|x a IH]; simpl; intros H; [exact H|].
  inversion H. auto.
Qed.

Lemma list_ascii_of_string_append (a b : string) :
  list_ascii_of_string (a ++ b) =
  (list_ascii_of_string a ++ list_ascii_of_string b)%list.
Proof. induction a as [|x a IH]; simpl; [|rewrite IH]; reflexivity. Qed.

Lemma append_inv_tail (a b c : string) : a ++ c = b ++ c -> a = b.
Proof.
  intros H. apply (f_equal list_ascii_of_string) in H.
  rewrite !list_ascii_of_string_append in H. apply app_inv_tail in H.
  apply (f_equal string_of_list_ascii) in H.
  rewrite !string_of_list_ascii_of_string in H. exact H.
Qed.

Lemma prefix_sep_append (m rest : string) :
  prefix "/" (m ++ "_" ++ rest) = prefix "/" m.
Proof.
  assert (Hnil : forall s, prefix "" s = true) by (intros [|? ?]; reflexivity).
  destruct m as [|c m]; [reflexivity|].
  change (String c m ++ "_" ++ rest) with (String c (m ++ "_" ++ rest)).
  cbn [prefix]. destruct (ascii_dec "/" c); [|reflexivity].
  rewrite !Hnil. reflexivity.
Qed.

Lemma ends_with_sep_append (a : string) (c : ascii) (b : string) :
  ends_with_sep (a ++ String c b) = ends_with_sep (String c b).
Proof.
  assert (Hstep : forall x s, s <> "" ->
            ends_with_sep (String x s) = ends_with_sep s).
  { intros x [|y s] Hs; [contradiction | reflexivity]. }
  induction a as [|x a IH]; [reflexivity|].
  rewrite <- IH.
  change ((String x a) ++ String c b) with (String x (a ++ String c b)).
  apply Hstep. destruct a; discriminate.
Qed.

Lemma os_path_join_relative (a b : string) :
  prefix "/" b = false -> os_path_join a b = as_dir a ++ b.
Proof.
  intros H. unfold os_path_join, as_dir. rewrite H.
  destruct ((a =? "") || ends_with_sep a); [reflexivity|].
  rewrite append_assoc. reflexivity.
Qed.

Lemma os_path_join_absolute (a b : string) :
  prefix "/" b = true -> os_path_join a b = b.
Proof. intros H. unfold os_path_join. rewrite H. reflexivity. Qed.

Lemma str_int_inj (n n' : Z) : str_int n = str_int n' -> n = n'.
Proof.
  unfold str_int. intros H.
  assert (Hn : forall z, Z.to_int z <> Decimal.Pos Decimal.Nil /\
                         Z.to_int z <> Decimal.Neg Decimal.Nil).
  { intros [|q|q]; simpl; split; try discriminate;
      intros E; inversion E as [E'];
      exact (DecimalPos.Unsigned.to_uint_nonnil _ E'). }
  apply (f_equal NilZero.int_of_string) in H.
  rewrite !NilZero.isi in H by apply Hn.
  inversion H as [E]. apply DecimalZ.to_int_inj in E. exact E.
Qed.

(** X8.  Storage layout.  For a message name that does not start with a
    slash (and a date that does not end with one), the snapshot of an
    iteration goes to [<volume>/dt=<date>/<message_name>_<epoch>.json], with
    exactly one separator after the volume path whether or not it was given
    with a trailing slash. *)
Theorem snapshot_path_layout (volume_path message_name : string) (w : world) :
  prefix "/" message_name = false ->
  ends_with_sep (utc_date w) = false ->
  snapshot_path volume_path message_name w =
  as_dir volume_path ++ "dt=" ++ utc_date w ++ "/" ++
  message_name ++ "_" ++ str_int (utc_epoch w) ++ ".json".
Proof.
  intros Hm Hd. unfold snapshot_path. cbv zeta.
  rewrite (@os_path_join_relative volume_path) by reflexivity.
  rewrite os_path_join_relative by (rewrite prefix_sep_append; exact Hm).
  assert (Hdir : as_dir (as_dir volume_path ++ "dt=" ++ utc_date w) =
                 (as_dir volume_path ++ "dt=" ++ utc_date w) ++ "/").
  { unfold as_dir at 1.
    replace ((as_dir volume_path ++ "dt=" ++ utc_date w) =? "") with false.
    2:{ symmetry. apply String.eqb_neq. destruct (as_dir volume_path); discriminate. }
    change ("dt=" ++ utc_date w) with (String "d" ("t=" ++ utc_date w)).
    rewrite ends_with_sep_append. simpl.
    destruct (utc_date w) as [|c d]; [reflexivity|].
    rewrite Hd. reflexivity. }
  rewrite Hdir, !append_assoc. reflexivity.
Qed.

(** X9.  The message name is not checked: one that starts with a slash makes
    [os.path.join] drop the directory, so the snapshot is written at
    [<message_name>_<epoch>.json], outside the volume and its [dt=]
    partition. *)
Theorem absolute_message_name_leaves_volume
    (volume_path message_name : string) (w : world) :
  prefix "/" message_name = true ->
  snapshot_path volume_path message_name w =
  message_name ++ "_" ++ str_int (utc_epoch w) ++ ".json".
Proof.
  intros Hm. unfold snapshot_path. cbv zeta.
  apply os_path_join_absolute. rewrite prefix_sep_append. exact Hm.
Qed.

(** X10.  Within one day, snapshots taken in different seconds never share
    a path: equal paths force equal epoch seconds. *)
Theorem snapshot_path_determines_epoch
    (volume_path message_name : string) (w1 w2 : world) :
  utc_date w1 = utc_date w2 ->
  snapshot_path volume_path message_name w1 =
  snapshot_path volume_path message_name w2 ->
  utc_epoch w1 = utc_epoch w2.
Proof.
  intros Hd. unfold snapshot_path. cbv zeta. rewrite Hd.
  set (dir := os_path_join volume_path ("dt=" ++ utc_date w2)).
  intros H.
  assert (Hname : message_name ++ "_" ++ str_int (utc_epoch w1) ++ ".json" =
                  message_name ++ "_" ++ str_int (utc_epoch w2) ++ ".json").
  { destruct (prefix "/" message_name) eqn:Hm.
    - rewrite !os_path_join_absolute in H
        by (rewrite prefix_sep_append; exact Hm).
      exact H.
    - rewrite !os_path_join_relative in H
        by (rewrite prefix_sep_append; exact Hm).
      apply append_inv_head in H. exact H. }
  apply append_inv_head in Hname. inversion Hname as [E].
  apply append_inv_tail in E. apply str_int_inj in E. exact E.
Qed.

(** ** [save_json_to_file] *)


(** ** [main] *)

Lemma collect_args_flatten (kvs : list (string * string)) :
  forall extra acc,
    collect_args (flatten kvs ++ extra) acc = collect_args extra (rev kvs ++ acc)%list.
Proof.
  induction kvs as [|[k v] kvs IH]; intros extra acc; [reflexivity|].
  change (flatten ((k, v) :: kvs) ++ extra)%list
    with (k :: v :: (flatten kvs ++ extra))%list.
  cbn [collect_args]. rewrite IH. cbn [rev]. rewrite <- app_assoc. reflexivity.
Qed.

Lemma collect_args_dangling (extra : list string) (acc : dict) :
  (List.length extra <= 1)%nat -> collect_args extra acc = acc.
Proof.
  destruct extra as [|a [|b extra]]; simpl; intros H; try reflexivity. lia.
Qed.

Lemma length_flatten (kvs : list (string * string)) :
  List.length (flatten kvs) = (2 * List.length kvs)%nat.
Proof. induction kvs as [|kv kvs IH]; simpl; [|rewrite IH]; lia. Qed.

Section EntryFacts.

Context {json : Type}.
Variable parse_feed : bytes -> exn + json.
Variable float_of_string : string -> option float.

Local Abbreviation entry := (main parse_feed float_of_string).
Local Abbreviation start := (launch parse_feed).


(** X14.  With at least three key/value pairs, [main] takes the URL and the
    message name from the last binding of [gtfs_rt_url] and [message_name]
    (the defaults when a key is absent), ignores unknown keys and a dangling
    last argument, always uses the default volume path, and starts the
    poller with the parsed interval. *)
Theorem command_line_last_binding_wins
    (prog : string) (kvs : list (string * string)) (extra : list string)
    (ws : list world) (p : float) :
  (3 <= List.length kvs)%nat ->
  (List.length extra <= 1)%nat ->
  match dict_get "poll_interval_seconds" (rev kvs) with
  | Some text => float_of_string text = Some p
  | None => p = DEFAULT_POLL_INTERVAL_SECONDS
  end ->
  let url := get (rev kvs) "gtfs_rt_url" DEFAULT_GTFS_RT_URL in
  let message_name := get (rev kvs) "message_name" "vehicle_positions" in
  entry (prog :: flatten kvs ++ extra) ws =
  start [MainLog INFO (StartingFor message_name url);
         MainLog INFO (Interval p);
         MainLog INFO (Volume DEFAULT_VOLUME_BASE_PATH)]
    url DEFAULT_VOLUME_BASE_PATH p message_name ws.
Proof.
  intros Hk He Hp url message_name. unfold main.
  destruct (Nat.leb_spec 7 (List.length (prog :: flatten kvs ++ extra))) as [_|Hlt].
  2:{ simpl in Hlt. rewrite length_app, length_flatten in Hlt. lia. }
  cbn [tl]. rewrite collect_args_flatten, collect_args_dangling by exact He.
  rewrite app_nil_r. fold url. fold message_name.
  destruct (dict_get "poll_interval_seconds" (rev kvs)) as [text|].
  - rewrite Hp. reflexivity.
  - rewrite Hp. reflexivity.
Qed.

(** X15.  A [poll_interval_seconds] value that is not a number stops [main]
    with [ValueError] before anything is logged or fetched. *)
Theorem bad_interval_stops_before_polling
    (prog : string) (kvs : list (string * string)) (extra : list string)
    (ws : list world) (text : string) :
  (3 <= List.length kvs)%nat ->
  (List.length extra <= 1)%nat ->
  dict_get "poll_interval_seconds" (rev kvs) = Some text ->
  float_of_string text = None ->
  entry (prog :: flatten kvs ++ extra) ws = ([], inl (ValueError text)).
Proof.
  intros Hk He Hd Hf. unfold main.
  destruct (Nat.leb_spec 7 (List.length (prog :: flatten kvs ++ extra))) as [_|Hlt].
  2:{ simpl in Hlt. rewrite length_app, length_flatten in Hlt. lia. }
  cbn [tl]. rewrite collect_args_flatten, collect_args_dangling by exact He.
  rewrite app_nil_r, Hd, Hf. reflexivity.
Qed.

End EntryFacts.

(** ** The general facts above, on concrete runs *)

Local Abbreviation poll :=
  (poll_loop sample_parse DEFAULT_GTFS_RT_URL DEFAULT_VOLUME_BASE_PATH
     "vehicle_positions").

Lemma changed_fetches_all_stored_witness :
  List.length
    (bronze_writes
       (trace (poll [serves feed_a 100; serves feed_b 101; serves feed_a 102]
                 initial_state))) = 3%nat.
Proof.
  exact (proj1 (proj2
    (@changed_fetches_all_stored _ sample_parse DEFAULT_GTFS_RT_URL
       DEFAULT_VOLUME_BASE_PATH "vehicle_positions"
       [serves feed_a 100; serves feed_b 101; serves feed_a 102]
       initial_state eq_refl))).
Defined.

Lemma counter_stays_below_limit_witness :
  (0 <= consecutive_errors {| last_data := Some feed_a; consecutive_errors := 2 |}
     < max_consecutive_errors)%Z.
Proof.
  refine (@counter_stays_below_limit _ sample_parse DEFAULT_GTFS_RT_URL
            DEFAULT_VOLUME_BASE_PATH "vehicle_positions"
            [serves feed_a 100; unreachable 101; unreachable 102]
            initial_state _ _ _ eq_refl).
  simpl. unfold max_consecutive_errors. lia.
Defined.


Lemma last_data_is_last_written_witness :
  exists b,
    last_data {| last_data := Some feed_b; consecutive_errors := 1 |} = Some b /\
    sample_parse b = inr feed_b.
Proof.
  exact (@last_data_is_last_written _ sample_parse DEFAULT_GTFS_RT_URL
           DEFAULT_VOLUME_BASE_PATH "vehicle_positions"
           [serves feed_a 100; serves feed_b 101; unreachable 102]
           initial_state _ _ eq_refl).
Defined.

Lemma one_half_second_sleep_per_iteration_witness :
  sleeps (trace (run [serves feed_a 100; serves feed_a 101; unreachable 102;
                      serves garbage 103])) =
  [0.5%float; 0.5%float; 0.5%float; 0.5%float].
Proof.
  exact (@one_half_second_sleep_per_iteration _ sample_parse DEFAULT_GTFS_RT_URL
           DEFAULT_VOLUME_BASE_PATH "vehicle_positions"
           DEFAULT_POLL_INTERVAL_SECONDS
           [serves feed_a 100; serves feed_a 101; unreachable 102;
            serves garbage 103]
           _ eq_refl).
Defined.

Lemma fatal_exit_is_the_tenth_error_witness :
  exists t',
    trace (run (outage 10 100)) =
    (t' ++ [Log ERROR (IngestError 10 RequestException);
            Log CRITICAL (TooManyErrors 10)])%list /\
    (List.length (sleeps t') < 10)%nat.
Proof.
  exact (@fatal_exit_is_the_tenth_error _ sample_parse DEFAULT_GTFS_RT_URL
           DEFAULT_VOLUME_BASE_PATH "vehicle_positions"
           DEFAULT_POLL_INTERVAL_SECONDS (outage 10 100) RequestException
           eq_refl).
Defined.


Lemma same_second_same_file_witness :
  map fst (bronze_writes (trace (poll [serves feed_a 100; serves feed_b 100]
                                   initial_state))) =
  ["/Volumes/prod_lakehouse/vehicle/gtfs_rt_raw/dt=2025-01-01/vehicle_positions_100.json";
   "/Volumes/prod_lakehouse/vehicle/gtfs_rt_raw/dt=2025-01-01/vehicle_positions_100.json"].
Proof.
  exact (@same_second_same_file _ sample_parse DEFAULT_GTFS_RT_URL
           DEFAULT_VOLUME_BASE_PATH "vehicle_positions"
           (serves feed_a 100) (serves feed_b 100) initial_state
           eq_refl eq_refl eq_refl).
Defined.

Lemma snapshot_path_layout_witness :
  snapshot_path "/Volumes/prod_lakehouse/vehicle/gtfs_rt_raw" "trip_updates"
    (serves feed_a 1735718400) =
  "/Volumes/prod_lakehouse/vehicle/gtfs_rt_raw/dt=2025-01-01/trip_updates_1735718400.json".
Proof.
  exact (@snapshot_path_layout "/Volumes/prod_lakehouse/vehicle/gtfs_rt_raw"
           "trip_updates" (serves feed_a 1735718400) eq_refl eq_refl).
Defined.

Lemma absolute_message_name_leaves_volume_witness :
  snapshot_path DEFAULT_VOLUME_BASE_PATH "/tmp/feed" (serves feed_a 100) =
  "/tmp/feed_100.json".
Proof.
  exact (@absolute_message_name_leaves_volume DEFAULT_VOLUME_BASE_PATH
           "/tmp/feed" (serves feed_a 100) eq_refl).
Defined.

Lemma snapshot_path_determines_epoch_witness :
  utc_epoch (serves feed_a 100) = utc_epoch (serves_disk_full feed_b 100).
Proof.
  exact (@snapshot_path_determines_epoch DEFAULT_VOLUME_BASE_PATH
           "vehicle_positions" (serves feed_a 100) (serves_disk_full feed_b 100)
           eq_refl eq_refl).
Defined.


Lemma command_line_last_binding_wins_witness :
  main sample_parse sample_float
    ("ingest.py" :: flatten trip_updates_command ++ ["dangling"])%list
    [serves feed_a 100] =
  launch sample_parse
    [MainLog INFO (StartingFor "trip_updates" "https://example.org/tu");
     MainLog INFO (Interval 60%float);
     MainLog INFO (Volume DEFAULT_VOLUME_BASE_PATH)]
    "https://example.org/tu" DEFAULT_VOLUME_BASE_PATH 60%float "trip_updates"
    [serves feed_a 100].
Proof.
  apply (@command_line_last_binding_wins _ sample_parse sample_float
           "ingest.py" trip_updates_command ["dangling"] [serves feed_a 100]
           60%float).
  - simpl. lia.
  - simpl. lia.
  - reflexivity.
Defined.

Lemma bad_interval_stops_before_polling_witness :
  main sample_parse sample_float
    ("ingest.py" :: flatten bad_interval_command ++ [])%list
    [serves feed_a 100] =
  ([], inl (ValueError "soon")).
Proof.
  apply (@bad_interval_stops_before_polling _ sample_parse sample_float
           "ingest.py" bad_interval_command [] [serves feed_a 100] "soon").
  - simpl. lia.
  - simpl. lia.
  - reflexivity.
  - reflexivity.
Defined.

End IngestSpec.

(* ===================================================================== *)
(** * Properties of the Silver tables *)
(* ===================================================================== *)

Module SilverSpec.

Import Silver.

Lemma map_flat_map {A B C} (f : B -> C) (g : A -> list B) (l : list A) :
  map f (flat_map g l) = flat_map (fun a => map f (g a)) l.
Proof.
  induction l as [|a l IH]; simpl; [reflexivity|].
  rewrite map_app, IH. reflexivity.
Qed.

Lemma flat_map_flat_map {A B C} (f : B -> list C) (g : A -> list B) (l : list A) :
  flat_map f (flat_map g l) = flat_map (fun a => flat_map f (g a)) l.
Proof.
  induction l as [|a l IH]; simpl; [reflexivity|].
  rewrite flat_map_app, IH. reflexivity.
Qed.

Lemma flat_map_map {A B C} (f : B -> list C) (g : A -> B) (l : list A) :
  flat_map f (map g l) = flat_map (fun a => f (g a)) l.
Proof.
  induction l as [|a l IH]; simpl; [reflexivity|].
  rewrite IH. reflexivity.
Qed.

Lemma map_as_flat_map {A B} (f : A -> B) (l : list A) :
  map f l = flat_map (fun a => [f a]) l.
Proof. induction l as [|a l IH]; simpl; [|rewrite IH]; reflexivity. Qed.

Section Facts.

Context {Metadata Timestamp : Type}.
Variable cast_bigint : string -> option Z.
Variable from_unixtime : Z -> string.

Local Abbreviation Bronze := (BronzeRecord (Metadata:=Metadata) (Timestamp:=Timestamp)).
Local Abbreviation vehicle_positions := (silver_vehicle_positions cast_bigint from_unixtime).
Local Abbreviation trip_updates := (silver_trip_updates cast_bigint from_unixtime).
Local Abbreviation service_alerts := (silver_service_alerts cast_bigint from_unixtime).
Local Abbreviation alert_entities := (@silver_service_alerts_entities Metadata Timestamp).

(** ** Each table is the concatenation of what it emits per entity *)

Lemma vehicle_positions_by_entity (bronze : list Bronze) :
  vehicle_positions bronze =
  flat_map (fun r => flat_map (fun e => vehicle_positions [only r e])
                       (explode (entity r))) bronze.
Proof.
  unfold silver_vehicle_positions, explode_entity.
  rewrite map_flat_map. apply flat_map_ext. intros r.
  rewrite map_map, map_as_flat_map. reflexivity.
Qed.

Lemma trip_updates_by_entity (bronze : list Bronze) :
  trip_updates bronze =
  flat_map (fun r => flat_map (fun e => trip_updates [only r e])
                       (explode (entity r))) bronze.
Proof.
  unfold silver_trip_updates, explode_stop_time_update, explode_entity.
  rewrite flat_map_flat_map, map_flat_map. apply flat_map_ext. intros r.
  rewrite flat_map_map, map_flat_map. apply flat_map_ext. intros e.
  cbn [flat_map map app explode entity only header dt file_metadata
       ingestion_timestamp].
  rewrite !app_nil_r. reflexivity.
Qed.

Lemma service_alerts_by_entity (bronze : list Bronze) :
  alert_entities (service_alerts bronze) =
  flat_map (fun r => flat_map (fun e => alert_entities (service_alerts [only r e]))
                       (explode (entity r))) bronze.
Proof.
  unfold silver_service_alerts_entities, explode_informed_entities,
    silver_service_alerts, explode_entity.
  rewrite map_flat_map, flat_map_map, flat_map_flat_map.
  apply flat_map_ext. intros r.
  rewrite flat_map_map. apply flat_map_ext. intros e.
  cbn [flat_map map app explode entity only header dt file_metadata
       ingestion_timestamp].
  rewrite !app_nil_r. reflexivity.
Qed.

(** ** Trip updates *)

(** C5.  What [silver_trip_updates] emits for one entity is one row per
    element of the entity's stop-time-update list, in order (none when the
    list is empty or absent); every row repeats the entity's [id] and
    [route_id] and carries the element's [stop_id] and [stop_sequence].  The
    table is the concatenation of these per-entity outputs. *)
Theorem trip_updates_fan_out (bronze : list Bronze) (r : Bronze) (e : FeedEntity) :
  List.length (trip_updates [only r e]) = List.length (stop_time_updates e) /\
  map (fun row => (t_entity_id row, t_route_id row, t_stop_id row, t_stop_sequence row))
      (trip_updates [only r e]) =
  map (fun su => (id e, trip_update e >>= tu_trip >>= td_route_id,
                  stu_stop_id su, stu_stop_sequence su))
      (stop_time_updates e) /\
  trip_updates bronze =
  flat_map (fun r0 => flat_map (fun e0 => trip_updates [only r0 e0])
                        (explode (entity r0))) bronze.
Proof.
  split; [|split; [|apply trip_updates_by_entity]].
  - unfold silver_trip_updates, explode_stop_time_update, explode_entity,
      stop_time_updates.
    cbn [flat_map map app explode entity only field entity_exploded].
    rewrite !app_nil_r, !length_map.
    destruct (trip_update e) as [tu|]; [|reflexivity].
    cbn [field]. destruct (tu_stop_time_update tu); reflexivity.
  - unfold silver_trip_updates, explode_stop_time_update, explode_entity,
      stop_time_updates.
    cbn [flat_map map app explode entity only field entity_exploded].
    rewrite !app_nil_r, !map_map.
    destruct (trip_update e) as [tu|]; [|reflexivity].
    cbn [field]. destruct (tu_stop_time_update tu); reflexivity.
Qed.

Lemma append_empty_r (s : string) : (s ++ "")%string = s.
Proof. induction s as [|c s IH]; simpl; [|rewrite IH]; reflexivity. Qed.

(** C6.  In every row of [silver_trip_updates], [trip_id] is [route_id],
    [trip_start_date] and [trip_start_time] joined by ["_"]; route 55 on
    20250101 at 08:00:00 gives ["55_20250101_08:00:00"].  (Spark's [concat]
    is null as soon as one of the three is null.) *)
Theorem trip_id_is_join_key (bronze : list Bronze) (row : TripStopUpdateRow) :
  In row (trip_updates bronze) ->
  (forall a b c,
     t_route_id row = Some a -> t_trip_start_date row = Some b ->
     t_trip_start_time row = Some c ->
     t_trip_id row = Some (a ++ "_" ++ b ++ "_" ++ c)%string) /\
  (t_route_id row = Some "55"%string ->
   t_trip_start_date row = Some "20250101"%string ->
   t_trip_start_time row = Some "08:00:00"%string ->
   t_trip_id row = Some "55_20250101_08:00:00"%string) /\
  (t_route_id row = None \/ t_trip_start_date row = None \/
   t_trip_start_time row = None ->
   t_trip_id row = None).
Proof.
  unfold silver_trip_updates. intros Hin. apply in_map_iff in Hin.
  destruct Hin as (s & <- & _).
  cbn [t_route_id t_trip_start_date t_trip_start_time t_trip_id].
  assert (Hgen : forall a b c,
    s_route_id s = Some a -> s_trip_start_date s = Some b ->
    s_trip_start_time s = Some c ->
    concat [s_route_id s; lit "_"%string; s_trip_start_date s; lit "_"%string;
            s_trip_start_time s] = Some (a ++ "_" ++ b ++ "_" ++ c)%string).
  { intros a b c -> -> ->. unfold lit. cbn [concat].
    rewrite append_empty_r. reflexivity. }
  split; [exact Hgen|]. split.
  - intros Ha Hb Hc. exact (Hgen _ _ _ Ha Hb Hc).
  - unfold lit. cbn [concat].
    intros [H | [H | H]]; rewrite H;
      destruct (s_route_id s); try destruct (s_trip_start_date s); reflexivity.
Qed.

(** ** Vehicle positions *)

(** C7.  In every row of [silver_vehicle_positions], [speed_mps] is the
    entity's position speed and [speed_kmh] is that speed times 3.6: 10.0
    gives exactly 36.0, and an absent speed gives an absent [speed_kmh]. *)
Theorem speed_kmh_from_speed_mps (bronze : list Bronze) (row : VehiclePositionRow) :
  In row (vehicle_positions bronze) ->
  (exists e, In e (entities bronze) /\ v_entity_id row = id e /\
             v_speed_mps row = (vehicle e >>= vp_position >>= speed)) /\
  (forall s, v_speed_mps row = Some s -> v_speed_kmh row = Some (s * 3.6)%float) /\
  (v_speed_mps row = Some 10%float -> v_speed_kmh row = Some 36%float) /\
  (v_speed_mps row = None -> v_speed_kmh row = None).
Proof.
  unfold silver_vehicle_positions, explode_entity, entities. intros Hin.
  apply in_map_iff in Hin. destruct Hin as (x & <- & Hx).
  apply in_flat_map in Hx. destruct Hx as (r & Hr & Hx).
  apply in_map_iff in Hx. destruct Hx as (e & <- & He).
  cbn [v_entity_id v_speed_mps v_speed_kmh entity_exploded field].
  split.
  { exists e. split; [|split; reflexivity].
    apply in_flat_map. exists r. split; assumption. }
  split; [intros s H | split; intros H]; rewrite H; reflexivity.
Qed.


(** ** Alert entities *)

(** C9.  What [silver_service_alerts_entities] emits for one alert is one
    row per element of its [informed_entity] list, in order; every row
    repeats the alert's [id], [cause], [effect] and severity and carries the
    element's agency, route and stop.  The table is the concatenation of
    these per-alert outputs. *)
Theorem alert_entities_fan_out (bronze : list Bronze) (r : Bronze) (e : FeedEntity) :
  List.length (alert_entities (service_alerts [only r e])) =
    List.length (informed_entities e) /\
  map (fun row => (n_alert_id row, n_cause row, n_effect row, n_severity_level row,
                   n_affected_agency_id row, n_affected_route_id row,
                   n_affected_stop_id row))
      (alert_entities (service_alerts [only r e])) =
  map (fun ie => (id e, alert e >>= al_cause, alert e >>= al_effect,
                  alert e >>= al_severity_level,
                  es_agency_id ie, es_route_id ie, es_stop_id ie))
      (informed_entities e) /\
  alert_entities (service_alerts bronze) =
  flat_map (fun r0 => flat_map (fun e0 => alert_entities (service_alerts [only r0 e0]))
                        (explode (entity r0))) bronze.
Proof.
  split; [|split; [|apply service_alerts_by_entity]].
  - unfold silver_service_alerts_entities, explode_informed_entities,
      silver_service_alerts, explode_entity, informed_entities.
    cbn [flat_map map app explode entity only field entity_exploded
         a_informed_entities].
    rewrite !app_nil_r, !length_map.
    destruct (alert e) as [a|]; [|reflexivity].
    cbn [field]. destruct (al_informed_entity a); reflexivity.
  - unfold silver_service_alerts_entities, explode_informed_entities,
      silver_service_alerts, explode_entity, informed_entities.
    cbn [flat_map map app explode entity only field entity_exploded
         a_informed_entities].
    rewrite !app_nil_r, !map_map.
    destruct (alert e) as [a|]; [|reflexivity].
    cbn [field]. destruct (al_informed_entity a); reflexivity.
Qed.

(** ** Further facts about the tables *)

(** X16.  No table keeps state across Bronze records: what a table emits
    for two batches one after the other is what it emits for the first
    followed by what it emits for the second, so new records only ever
    append rows. *)
Theorem tables_process_batches_independently (old new : list Bronze) :
  silver_vehicle_positions cast_bigint from_unixtime (old ++ new) =
    silver_vehicle_positions cast_bigint from_unixtime old ++
    silver_vehicle_positions cast_bigint from_unixtime new /\
  silver_trip_updates cast_bigint from_unixtime (old ++ new) =
    silver_trip_updates cast_bigint from_unixtime old ++
    silver_trip_updates cast_bigint from_unixtime new /\
  silver_service_alerts cast_bigint from_unixtime (old ++ new) =
    silver_service_alerts cast_bigint from_unixtime old ++
    silver_service_alerts cast_bigint from_unixtime new /\
  silver_service_alerts_entities
    (silver_service_alerts cast_bigint from_unixtime (old ++ new)) =
    silver_service_alerts_entities
      (silver_service_alerts cast_bigint from_unixtime old) ++
    silver_service_alerts_entities
      (silver_service_alerts cast_bigint from_unixtime new).
Proof.
  unfold silver_vehicle_positions, silver_trip_updates, silver_service_alerts,
    silver_service_alerts_entities, explode_stop_time_update,
    explode_informed_entities, explode_entity.
  rewrite !flat_map_app, !map_app, !flat_map_app, !map_app. auto.
Qed.

Lemma in_explode_entity (bronze : list Bronze) x :
  In x (explode_entity bronze) ->
  exists r, In r bronze /\ In (entity_exploded x) (explode (entity r)) /\
            ex_header x = header r /\ ex_dt x = dt r /\
            ex_file_metadata x = file_metadata r /\
            ex_ingestion_timestamp x = ingestion_timestamp r.
Proof.
  unfold explode_entity. intros Hx.
  apply in_flat_map in Hx. destruct Hx as (r & Hr & Hx).
  apply in_map_iff in Hx. destruct Hx as (e & <- & He).
  exists r. simpl. repeat split; auto.
Qed.

(** X17.  Every row of the three entity-level tables comes from one entity
    of one Bronze record: it repeats that entity's [id] and that record's
    partition date, file metadata and ingestion timestamp, and its
    [feed_timestamp] is the record's header timestamp. *)
Theorem rows_trace_back_to_their_record (bronze : list Bronze) :
  (forall row, In row (vehicle_positions bronze) ->
     exists r e, In r bronze /\ In e (explode (entity r)) /\
       v_entity_id row = id e /\ v_dt row = dt r /\
       v_file_metadata row = file_metadata r /\
       v_ingestion_timestamp row = ingestion_timestamp r /\
       v_feed_timestamp row =
         from_unixtime_col from_unixtime (cast cast_bigint (header r >>= hd_timestamp))) /\
  (forall row, In row (trip_updates bronze) ->
     exists r e, In r bronze /\ In e (explode (entity r)) /\
       t_entity_id row = id e /\ t_dt row = dt r /\
       t_file_metadata row = file_metadata r /\
       t_ingestion_timestamp row = ingestion_timestamp r /\
       t_feed_timestamp row =
         from_unixtime_col from_unixtime (cast cast_bigint (header r >>= hd_timestamp))) /\
  (forall row, In row (service_alerts bronze) ->
     exists r e, In r bronze /\ In e (explode (entity r)) /\
       a_alert_id row = id e /\ a_dt row = dt r /\
       a_file_metadata row = file_metadata r /\
       a_ingestion_timestamp row = ingestion_timestamp r /\
       a_feed_timestamp row =
         from_unixtime_col from_unixtime (cast cast_bigint (header r >>= hd_timestamp))).
Proof.
  split; [|split]; intros row Hin.
  - unfold silver_vehicle_positions in Hin. apply in_map_iff in Hin.
    destruct Hin as (x & <- & Hx). apply in_explode_entity in Hx.
    destruct Hx as (r & Hr & He & Hh & Hd & Hf & Hi).
    exists r, (entity_exploded x). simpl. rewrite Hh, Hd, Hf, Hi. auto 10.
  - unfold silver_trip_updates, explode_stop_time_update in Hin.
    apply in_map_iff in Hin. destruct Hin as (y & <- & Hy).
    apply in_flat_map in Hy. destruct Hy as (x & Hx & Hy).
    apply in_map_iff in Hy. destruct Hy as (su & <- & _).
    apply in_explode_entity in Hx.
    destruct Hx as (r & Hr & He & Hh & Hd & Hf & Hi).
    exists r, (entity_exploded x). simpl. rewrite Hh, Hd, Hf, Hi. auto 10.
  - unfold silver_service_alerts in Hin. apply in_map_iff in Hin.
    destruct Hin as (x & <- & Hx). apply in_explode_entity in Hx.
    destruct Hx as (r & Hr & He & Hh & Hd & Hf & Hi).
    exists r, (entity_exploded x). simpl. rewrite Hh, Hd, Hf, Hi. auto 10.
Qed.


(** X19.  In every row of [silver_vehicle_positions] the derived
    [bearing_degrees] is the bearing itself, present or null, and the
    geometry point is (longitude, latitude), in that order. *)
Theorem vehicle_derived_columns (bronze : list Bronze) (row : VehiclePositionRow) :
  In row (vehicle_positions bronze) ->
  v_bearing_degrees row = v_bearing row /\
  x (v_geometry_point row) = v_longitude row /\
  y (v_geometry_point row) = v_latitude row.
Proof.
  unfold silver_vehicle_positions. intros Hin.
  apply in_map_iff in Hin. destruct Hin as (r & <- & _).
  cbn [v_bearing_degrees v_bearing v_geometry_point v_longitude v_latitude x y].
  split; [|split; reflexivity].
  unfold when_otherwise, isNotNull.
  destruct (Some (entity_exploded r) >>= vehicle >>= vp_position >>= bearing);
    reflexivity.
Qed.

Lemma trip_updates_entity_length (r : Bronze) (e : FeedEntity) :
  List.length (trip_updates [only r e]) = List.length (stop_time_updates e).
Proof.
  unfold silver_trip_updates, explode_stop_time_update, explode_entity,
    stop_time_updates.
  cbn [flat_map map app explode entity only field entity_exploded].
  rewrite !app_nil_r, !length_map.
  destruct (trip_update e) as [tu|]; [|reflexivity].
  cbn [field]. destruct (tu_stop_time_update tu); reflexivity.
Qed.

Lemma alert_entities_entity_length (r : Bronze) (e : FeedEntity) :
  List.length (alert_entities (service_alerts [only r e])) =
  List.length (informed_entities e).
Proof.
  unfold silver_service_alerts_entities, explode_informed_entities,
    silver_service_alerts, explode_entity, informed_entities.
  cbn [flat_map map app explode entity only field entity_exploded
       a_informed_entities].
  rewrite !app_nil_r, !length_map.
  destruct (alert e) as [a|]; [|reflexivity].
  cbn [field]. destruct (al_informed_entity a); reflexivity.
Qed.

Lemma length_nested {A B C} (es : A -> list B) (g : A -> B -> list C)
    (h : B -> nat) :
  (forall a b, List.length (g a b) = h b) ->
  forall l, List.length (flat_map (fun a => flat_map (g a) (es a)) l) =
            list_sum (map h (flat_map es l)).
Proof.
  intros Hg. induction l as [|a l IH]; simpl; [reflexivity|].
  rewrite length_app, map_app, list_sum_app, IH. f_equal.
  induction (es a) as [|b bs IHb]; simpl; [reflexivity|].
  rewrite length_app, Hg, IHb. reflexivity.
Qed.

Lemma length_flat_map_sum {A B} (f : A -> list B) (l : list A) :
  List.length (flat_map f l) = list_sum (map (fun a => List.length (f a)) l).
Proof.
  induction l as [|a l IH]; simpl; [reflexivity|].
  rewrite length_app, IH. reflexivity.
Qed.

(** X20.  Table sizes: [silver_trip_updates] has as many rows as there are
    stop-time updates in all entities of all records, and
    [silver_service_alerts_entities] as many as there are informed
    entities; [silver_vehicle_positions] and [silver_service_alerts] have
    one row per entity. *)
Theorem table_sizes (bronze : list Bronze) :
  List.length (trip_updates bronze) =
    list_sum (map (fun e => List.length (stop_time_updates e)) (entities bronze)) /\
  List.length (alert_entities (service_alerts bronze)) =
    list_sum (map (fun e => List.length (informed_entities e)) (entities bronze)) /\
  List.length (vehicle_positions bronze) = List.length (entities bronze) /\
  List.length (service_alerts bronze) = List.length (entities bronze).
Proof.
  split; [|split; [|split]].
  - rewrite trip_updates_by_entity. unfold entities.
    apply (length_nested (fun r0 : Bronze => explode (entity r0))
             (fun r0 e0 => trip_updates [only r0 e0])).
    apply trip_updates_entity_length.
  - rewrite service_alerts_by_entity. unfold entities.
    apply (length_nested (fun r0 : Bronze => explode (entity r0))
             (fun r0 e0 => alert_entities (service_alerts [only r0 e0]))).
    apply alert_entities_entity_length.
  - unfold silver_vehicle_positions, explode_entity, entities.
    rewrite length_map, !length_flat_map_sum. f_equal.
    apply map_ext. intros r. apply length_map.
  - unfold silver_service_alerts, explode_entity, entities.
    rewrite length_map, !length_flat_map_sum. f_equal.
    apply map_ext. intros r. apply length_map.
Qed.

Lemma join_key_split (a1 x1 a2 x2 : string) :
  no_underscore a1 = true -> no_underscore a2 = true ->
  (a1 ++ "_" ++ x1)%string = (a2 ++ "_" ++ x2)%string ->
  a1 = a2 /\ x1 = x2.
Proof.
  revert a2. induction a1 as [|c a1 IH]; intros [|c2 a2] H1 H2 H; simpl in *.
  - inversion H. auto.
  - inversion H as [[Hc Hr]]. subst c2. simpl in H2. discriminate.
  - inversion H as [[Hc Hr]]. subst c. simpl in H1. discriminate.
  - inversion H as [[Hc Hr]]. subst c2.
    apply andb_prop in H1. apply andb_prop in H2.
    destruct (IH a2 (proj2 H1) (proj2 H2) Hr) as [-> ->]. auto.
Qed.

Lemma trip_id_of_row (bronze : list Bronze) (row : TripStopUpdateRow) :
  In row (trip_updates bronze) ->
  t_trip_id row =
  concat [t_route_id row; lit "_"%string; t_trip_start_date row;
          lit "_"%string; t_trip_start_time row].
Proof.
  unfold silver_trip_updates. intros Hin. apply in_map_iff in Hin.
  destruct Hin as (x & <- & _). reflexivity.
Qed.

(** X21.  The join key identifies the trip as long as route ids and start
    dates contain no underscore: two rows (of the same or of different
    batches) with all three fields present and equal [trip_id] have the same
    [route_id], [trip_start_date] and [trip_start_time]. *)
Theorem trip_id_identifies_trip (b1 b2 : list Bronze)
    (r1 r2 : TripStopUpdateRow) (a1 d1 c1 a2 d2 c2 : string) :
  In r1 (trip_updates b1) -> In r2 (trip_updates b2) ->
  t_route_id r1 = Some a1 -> t_trip_start_date r1 = Some d1 ->
  t_trip_start_time r1 = Some c1 ->
  t_route_id r2 = Some a2 -> t_trip_start_date r2 = Some d2 ->
  t_trip_start_time r2 = Some c2 ->
  no_underscore a1 = true -> no_underscore d1 = true ->
  no_underscore a2 = true -> no_underscore d2 = true ->
  t_trip_id r1 = t_trip_id r2 ->
  a1 = a2 /\ d1 = d2 /\ c1 = c2.
Proof.
  intros Hin1 Hin2 Ha1 Hd1 Hc1 Ha2 Hd2 Hc2 Na1 Nd1 Na2 Nd2 Hid.
  rewrite (trip_id_of_row _ _ Hin1), (trip_id_of_row _ _ Hin2) in Hid.
  rewrite Ha1, Hd1, Hc1, Ha2, Hd2, Hc2 in Hid.
  unfold lit in Hid. cbn [concat] in Hid. rewrite !append_empty_r in Hid.
  inversion Hid as [H].
  destruct (join_key_split _ _ _ _ Na1 Na2 H) as [-> H'].
  destruct (join_key_split _ _ _ _ Nd1 Nd2 H') as [-> ->]. auto.
Qed.

End Facts.

Import SilverScenario.
Local Open Scope string_scope.

(** Three stop-time updates, three rows. *)
Example three_stops_three_rows :
  map (fun row => (t_entity_id row, t_route_id row, t_stop_id row,
                   t_stop_sequence row, t_trip_id row))
      (silver_trip_updates cast_digits show_epoch
         [snapshot [vehicle_entity; trip_entity; alert_entity]]) =
  [ (Some "e1", Some "55", Some "A", Some 1%Z, Some "55_20250101_08:00:00");
    (Some "e1", Some "55", Some "B", Some 2%Z, Some "55_20250101_08:00:00");
    (Some "e1", Some "55", Some "C", Some 3%Z, Some "55_20250101_08:00:00") ].
Proof. reflexivity. Qed.

(** Two informed entities, two rows. *)
Example two_informed_entities_two_rows :
  map (fun row => (n_alert_id row, n_cause row, n_effect row,
                   n_affected_route_id row, n_affected_stop_id row))
      (silver_service_alerts_entities
         (silver_service_alerts cast_digits show_epoch
            [snapshot [alert_entity]])) =
  [ (Some "e3", Some "CONSTRUCTION", Some "DETOUR", Some "55", None);
    (Some "e3", Some "CONSTRUCTION", Some "DETOUR", None, Some "A") ].
Proof. reflexivity. Qed.

Lemma trip_id_is_join_key_witness :
  exists row,
    In row (silver_trip_updates cast_digits show_epoch [snapshot [trip_entity]]) /\
    t_trip_id row = Some "55_20250101_08:00:00".
Proof.
  eexists. split; [left; reflexivity|].
  lazymatch goal with
  | |- t_trip_id ?row = _ =>
      exact (proj1 (proj2
        (@trip_id_is_join_key _ _ cast_digits show_epoch
           [snapshot [trip_entity]] row (or_introl eq_refl)))
        eq_refl eq_refl eq_refl)
  end.
Defined.

Lemma speed_kmh_from_speed_mps_witness :
  exists row,
    In row (silver_vehicle_positions cast_digits show_epoch
              [snapshot [vehicle_entity]]) /\
    v_speed_mps row = Some 10%float /\ v_speed_kmh row = Some 36%float.
Proof.
  eexists. split; [left; reflexivity|]. split; [reflexivity|].
  lazymatch goal with
  | |- v_speed_kmh ?row = _ =>
      exact (proj1 (proj2 (proj2
        (@speed_kmh_from_speed_mps _ _ cast_digits show_epoch
           [snapshot [vehicle_entity]] row (or_introl eq_refl))))
        eq_refl)
  end.
Defined.



(** Without that condition the key is ambiguous: route ["1_2"] on date
    ["3"] and route ["1"] on date ["2_3"] get the same [trip_id]. *)
Example trip_id_collision :
  concat [Some "1_2"; lit "_"; Some "3"; lit "_"; Some "08:00:00"] =
  concat [Some "1"; lit "_"; Some "2_3"; lit "_"; Some "08:00:00"].
Proof. reflexivity. Qed.

Lemma rows_trace_back_to_their_record_witness :
  exists r e,
    In r [snapshot [vehicle_entity]] /\ In e (explode (entity r)) /\
    Some "e2" = id e /\ Some "2025-01-01" = dt r.
Proof.
  destruct (proj1 (@rows_trace_back_to_their_record _ _ cast_digits show_epoch
                     [snapshot [vehicle_entity]])
              _ (or_introl eq_refl))
    as (r & e & Hr & He & Hid & Hdt & _).
  exists r, e. repeat split; assumption.
Defined.


Lemma vehicle_derived_columns_witness :
  exists row,
    In row (silver_vehicle_positions cast_digits show_epoch
              [snapshot [vehicle_entity]]) /\
    v_bearing_degrees row = v_bearing row /\
    x (v_geometry_point row) = Some 24.94%float.
Proof.
  eexists. split; [left; reflexivity|].
  lazymatch goal with
  | |- v_bearing_degrees ?row = _ /\ _ =>
      destruct (@vehicle_derived_columns _ _ cast_digits show_epoch
                  [snapshot [vehicle_entity]] row (or_introl eq_refl))
        as (Hb & Hx & _)
  end.
  split; [exact Hb | exact Hx].
Defined.

Lemma trip_id_identifies_trip_witness :
  "55" = "55" /\ "20250101" = "20250101" /\ "08:00:00" = "08:00:00".
Proof.
  refine (@trip_id_identifies_trip _ _ cast_digits show_epoch
            [snapshot [trip_entity]] [snapshot [alert_entity; trip_entity]]
            _ _ "55" "20250101" "08:00:00" "55" "20250101" "08:00:00"
            (or_introl eq_refl) (or_introl eq_refl)
            eq_refl eq_refl eq_refl eq_refl eq_refl eq_refl
            eq_refl eq_refl eq_refl eq_refl eq_refl).
Defined.

End SilverSpec.

(* ===================================================================== *)
(** * From the poller to the Bronze tables *)
(* ===================================================================== *)

Module PipelineSpec.

Import Ingest Silver.
Local Open Scope string_scope.

Lemma glob_star (p path : string) :
  glob (String "*" p) path =
  glob p path ||
  match path with
  | EmptyString => false
  | String c path' => negb (Ascii.eqb c "/") && glob (String "*" p) path'
  end.
Proof. destruct path; reflexivity. Qed.

Lemma glob_literal (lit p t : string) :
  no_star lit = true -> glob (lit ++ p) (lit ++ t) = glob p t.
Proof.
  induction lit as [|c lit IH]; intros H; [reflexivity|].
  simpl in H. apply andb_prop in H. destruct H as [Hc Hl].
  change (glob (String c (lit ++ p)) (String c (lit ++ t)) = glob p t).
  cbn [glob]. apply negb_true_iff in Hc. rewrite Hc.
  rewrite Ascii.eqb_refl, IH by exact Hl. reflexivity.
Qed.

(** A star followed by a separator consumes exactly one path component. *)
Lemma glob_component (s p t : string) :
  no_slash s = true ->
  glob (String "*" (String "/" p)) (s ++ String "/" t) = glob p t.
Proof.
  induction s as [|c s IH]; intros H.
  - rewrite glob_star. cbn [append glob].
    change (Ascii.eqb "/" "*") with false. change (Ascii.eqb "/" "/") with true.
    cbn [negb andb]. rewrite orb_false_r. reflexivity.
  - simpl in H. apply andb_prop in H. destruct H as [Hc Hs].
    change (String c s ++ String "/" t) with (String c (s ++ String "/" t)).
    rewrite glob_star, Hc, IH by exact Hs. cbn [glob andb].
    change (Ascii.eqb "/" "*") with false. cbv beta iota.
    apply negb_true_iff in Hc. rewrite (Ascii.eqb_sym "/" c), Hc. reflexivity.
Qed.

(** A star before the extension consumes a slash-free stem. *)
Lemma glob_stem (s ext : string) :
  no_slash s = true -> no_star ext = true ->
  glob (String "*" ext) (s ++ ext) = true.
Proof.
  intros Hs He. induction s as [|c s IH].
  - assert (Hself : glob ext ext = true).
    { rewrite <- (SilverSpec.append_empty_r ext).
      rewrite glob_literal by exact He.
      reflexivity. }
    rewrite glob_star. cbn [append]. rewrite Hself. reflexivity.
  - simpl in Hs. apply andb_prop in Hs. destruct Hs as [Hc Hs].
    change (String c s ++ ext) with (String c (s ++ ext)).
    rewrite glob_star, Hc, IH by exact Hs. apply orb_true_r.
Qed.

Lemma no_slash_not_last (s : string) :
  no_slash s = true -> ends_with_sep s = false.
Proof.
  induction s as [|c s IH]; intros H; [reflexivity|].
  simpl in H. apply andb_prop in H. destruct H as [Hc Hs].
  destruct s as [|c' s'].
  - simpl. apply negb_true_iff in Hc. exact Hc.
  - change (ends_with_sep (String c (String c' s'))) with (ends_with_sep (String c' s')).
    apply IH. exact Hs.
Qed.

Lemma no_slash_digits (d : Decimal.uint) :
  no_slash (NilEmpty.string_of_uint d) = true.
Proof. induction d; simpl; auto. Qed.

Lemma no_slash_str_int (n : Z) : no_slash (str_int n) = true.
Proof.
  assert (Hu : forall d, no_slash (NilZero.string_of_uint d) = true).
  { intros d. destruct d; try reflexivity; apply (no_slash_digits (_ d)). }
  unfold str_int. destruct n as [|q|q]; simpl; try reflexivity; apply Hu.
Qed.

(** Where the poller started by [main] puts the snapshots of a feed. *)
Lemma default_snapshot_path (name : string) (w : world) :
  prefix "/" name = false -> no_slash (utc_date w) = true ->
  snapshot_path DEFAULT_VOLUME_BASE_PATH name w =
  (VOLUME_BASE_PATH ++ "/dt=") ++ utc_date w ++
  String "/" (name ++ "_" ++ str_int (utc_epoch w) ++ ".json").
Proof.
  intros Hn Hd. unfold snapshot_path. cbv zeta.
  rewrite (@IngestSpec.os_path_join_relative DEFAULT_VOLUME_BASE_PATH) by reflexivity.
  rewrite IngestSpec.os_path_join_relative
    by (rewrite IngestSpec.prefix_sep_append; exact Hn).
  change (as_dir DEFAULT_VOLUME_BASE_PATH ++ "dt=" ++ utc_date w)
    with ((VOLUME_BASE_PATH ++ "/dt") ++ String "=" (utc_date w)).
  unfold as_dir.
  rewrite IngestSpec.ends_with_sep_append.
  replace (ends_with_sep (String "=" (utc_date w))) with false.
  2:{ destruct (utc_date w) as [|c d] eqn:E; [reflexivity|].
      symmetry. apply (no_slash_not_last (String c d)) in Hd. exact Hd. }
  rewrite orb_false_r.
  replace (((VOLUME_BASE_PATH ++ "/dt") ++ String "=" (utc_date w)) =? "") with false
    by reflexivity.
  rewrite !IngestSpec.append_assoc. reflexivity.
Qed.

(** Matching a snapshot of feed [name] against the pattern of the table for
    [table] comes down to comparing the two file names. *)
Lemma glob_default_snapshot (table name : string) (w : world) :
  prefix "/" name = false -> no_slash (utc_date w) = true ->
  glob (VOLUME_BASE_PATH ++ "/dt=*/" ++ table ++ "_*.json")
       (snapshot_path DEFAULT_VOLUME_BASE_PATH name w) =
  glob (table ++ "_*.json") (name ++ "_" ++ str_int (utc_epoch w) ++ ".json").
Proof.
  intros Hn Hd. rewrite default_snapshot_path by assumption.
  change (VOLUME_BASE_PATH ++ "/dt=*/" ++ table ++ "_*.json")
    with ((VOLUME_BASE_PATH ++ "/dt=") ++
          String "*" (String "/" (table ++ "_*.json"))).
  rewrite glob_literal by reflexivity.
  apply glob_component. exact Hd.
Qed.

Lemma glob_own_name (name : string) (n : Z) :
  no_star name = true ->
  glob (name ++ "_*.json") (name ++ "_" ++ str_int n ++ ".json") = true.
Proof.
  intros Hn.
  assert (Hn' : no_star (name ++ "_") = true).
  { induction name as [|c name IH]; [reflexivity|].
    simpl in Hn. apply andb_prop in Hn. destruct Hn as [Hc Hn].
    change (no_star (String c (name ++ "_")) = true).
    simpl. rewrite Hc. apply IH. exact Hn. }
  replace (name ++ "_*.json") with ((name ++ "_") ++ String "*" ".json")
    by (rewrite IngestSpec.append_assoc; reflexivity).
  replace (name ++ "_" ++ str_int n ++ ".json")
    with ((name ++ "_") ++ str_int n ++ ".json")
    by (rewrite IngestSpec.append_assoc; reflexivity).
  rewrite glob_literal by exact Hn'.
  apply glob_stem; [apply no_slash_str_int | reflexivity].
Qed.

(** X22.  The poller and the Bronze tables agree on the storage layout:
    whatever the second, the snapshot the poller (started by [main], which
    always uses the default volume) writes for a feed matches the load
    pattern of the Bronze table of that feed. *)
Theorem bronze_tables_load_their_feed (w : world) :
  no_slash (utc_date w) = true ->
  glob bronze_vehicle_positions_files
    (snapshot_path DEFAULT_VOLUME_BASE_PATH "vehicle_positions" w) = true /\
  glob bronze_trip_updates_files
    (snapshot_path DEFAULT_VOLUME_BASE_PATH "trip_updates" w) = true /\
  glob bronze_service_alerts_files
    (snapshot_path DEFAULT_VOLUME_BASE_PATH "service_alerts" w) = true.
Proof.
  intros Hd. unfold bronze_vehicle_positions_files, bronze_trip_updates_files,
    bronze_service_alerts_files.
  repeat split.
  - rewrite (@glob_default_snapshot "vehicle_positions") by (reflexivity || exact Hd).
    apply glob_own_name. reflexivity.
  - rewrite (@glob_default_snapshot "trip_updates") by (reflexivity || exact Hd).
    apply glob_own_name. reflexivity.
  - rewrite (@glob_default_snapshot "service_alerts") by (reflexivity || exact Hd).
    apply glob_own_name. reflexivity.
Qed.

(** X23.  The feeds stay apart: the snapshot written for one feed matches
    the load pattern of neither of the other two Bronze tables. *)
Theorem bronze_tables_ignore_other_feeds (w : world) :
  no_slash (utc_date w) = true ->
  let file name := snapshot_path DEFAULT_VOLUME_BASE_PATH name w in
  glob bronze_vehicle_positions_files (file "trip_updates") = false /\
  glob bronze_vehicle_positions_files (file "service_alerts") = false /\
  glob bronze_trip_updates_files (file "vehicle_positions") = false /\
  glob bronze_trip_updates_files (file "service_alerts") = false /\
  glob bronze_service_alerts_files (file "vehicle_positions") = false /\
  glob bronze_service_alerts_files (file "trip_updates") = false.
Proof.
  intros Hd file. unfold bronze_vehicle_positions_files,
    bronze_trip_updates_files, bronze_service_alerts_files, file.
  repeat split.
  - rewrite (@glob_default_snapshot "vehicle_positions" "trip_updates")
      by (reflexivity || exact Hd).
    reflexivity.
  - rewrite (@glob_default_snapshot "vehicle_positions" "service_alerts")
      by (reflexivity || exact Hd).
    reflexivity.
  - rewrite (@glob_default_snapshot "trip_updates" "vehicle_positions")
      by (reflexivity || exact Hd).
    reflexivity.
  - rewrite (@glob_default_snapshot "trip_updates" "service_alerts")
      by (reflexivity || exact Hd).
    reflexivity.
  - rewrite (@glob_default_snapshot "service_alerts" "vehicle_positions")
      by (reflexivity || exact Hd).
    reflexivity.
  - rewrite (@glob_default_snapshot "service_alerts" "trip_updates")
      by (reflexivity || exact Hd).
    reflexivity.
Qed.

Import Scenario.

Lemma bronze_tables_load_their_feed_witness :
  glob bronze_trip_updates_files
    "/Volumes/prod_lakehouse/vehicle/gtfs_rt_raw/dt=2025-01-01/trip_updates_1735718400.json" =
  true.
Proof.
  exact (proj1 (proj2
    (@bronze_tables_load_their_feed (serves feed_a 1735718400) eq_refl))).
Defined.

Lemma bronze_tables_ignore_other_feeds_witness :
  glob bronze_vehicle_positions_files
    "/Volumes/prod_lakehouse/vehicle/gtfs_rt_raw/dt=2025-01-01/trip_updates_1735718400.json" =
  false.
Proof.
  exact (proj1
    (@bronze_tables_ignore_other_feeds (serves feed_a 1735718400) eq_refl)).
Defined.

End PipelineSpec.
